(** * TKFX tracker firmware: radio transmission pipeline primitives

    Shallow embedding of the C sources
    - [src/sigfox/mcu_api.c]   (allocator, AES-128 CBC, sequence record, timer),
    - [src/peripherals/dma.c]  (DMA1 channels 3 and 6),
    - [s2lp_hw.c]              (chip-select bracketed SPI exchange),
    - [inc/peripherals/nvm.h], [aes.h] (enumerations and constants),
    followed by the properties established about them.

    Conventions.  C integers are [Z]; unsigned w-bit arithmetic that can
    wrap is written with an explicit [mod 2^w].  Byte arrays are [list Z]
    read with [byte_at] and written with the list update [<[i:=v]>]; an
    access outside the array is undefined behaviour in C, here a read
    yields [0] and a write leaves the list as it is, and the statements
    carry the length hypotheses that exclude it.  Calls into peripherals
    whose code is outside the sources are recorded as events of a trace;
    their results come from a function of the history so far. *)

From Stdlib Require Import ZArith Lia Bool.
From stdpp Require Import base numbers option list.

Local Open Scope Z_scope.

(** ** Machine integers and byte arrays *)

Definition u32 (x : Z) : Z := x mod 2 ^ 32.

Definition byte_at (l : list Z) (i : nat) : Z := default 0 (l !! i).

(** [for (byte_idx = b ; byte_idx < b + count ; byte_idx++)
       dst[dst_off + byte_idx] = src[src_off + byte_idx];] *)
Fixpoint copy_bytes (count byte_idx : nat) (dst : list Z) (dst_off : nat)
    (src : list Z) (src_off : nat) : list Z :=
  match count with
  | O => dst
  | S count' =>
      copy_bytes count' (S byte_idx)
        (<[(dst_off + byte_idx)%nat := byte_at src (src_off + byte_idx)]> dst)
        dst_off src src_off
  end.

(** The [n] bytes of an array that start at offset [off]. *)
Definition slice (l : list Z) (off n : nat) : list Z :=
  map (fun i => byte_at l (off + i)) (seq 0 n).

(** ** aes.h *)

Definition AES_BLOCK_SIZE : nat := 16.
Definition AES_SUCCESS : Z := 0.
Definition AES_ERROR_TIMEOUT : Z := 1.

(** ** nvm.h *)

Definition NVM_SUCCESS : Z := 0.
Definition NVM_ERROR_NULL_PARAMETER : Z := 1.
Definition NVM_ERROR_ADDRESS : Z := 2.
Definition NVM_ERROR_UNLOCK : Z := 3.
Definition NVM_ERROR_LOCK : Z := 4.
Definition NVM_ERROR_WRITE : Z := 5.

Definition NVM_ADDRESS_SIGFOX_DEVICE_ID : Z := 0.
Definition NVM_ADDRESS_SIGFOX_DEVICE_KEY : Z := 4.
Definition NVM_ADDRESS_SIGFOX_PN : Z := 20.
Definition NVM_ADDRESS_SIGFOX_MESSAGE_COUNTER : Z := 22.
Definition NVM_ADDRESS_SIGFOX_FH : Z := 24.
Definition NVM_ADDRESS_SIGFOX_RL : Z := 26.
Definition NVM_ADDRESS_LAST : Z := 27.

(** The non-volatile byte space.  [eeprom] holds its SPACE_SIZE bytes;
    the two flags say whether the unlock and the lock step of the flash
    interface fail. *)
Record NVM_t := mkNVM {
  eeprom : list Z;
  unlock_fault : bool;
  lock_fault : bool
}.

Definition NVM_SPACE_SIZE (nvm : NVM_t) : Z := Z.of_nat (length (eeprom nvm)).

(** Modelled from the spec: NVM_read_byte, whose body (nvm.c) is not part
    of the sources.  The address is validated against the size of the
    space before any access; an out-of-range read fails with the address
    error and leaves the destination byte as it was. *)
Definition NVM_read_byte (nvm : NVM_t) (address_offset : Z) (data : Z) : Z * Z :=
  if NVM_SPACE_SIZE nvm <=? address_offset then (NVM_ERROR_ADDRESS, data)
  else (NVM_SUCCESS, byte_at (eeprom nvm) (Z.to_nat address_offset)).

(** Modelled from the spec: NVM_write_byte, whose body (nvm.c) is not part
    of the sources.  Address validation first, then the bracket
    unlock, write, lock; a failing lock step reports the failure and does
    not roll the written byte back. *)
Definition NVM_write_byte (nvm : NVM_t) (address_offset : Z) (data : Z) : Z * NVM_t :=
  if NVM_SPACE_SIZE nvm <=? address_offset then (NVM_ERROR_ADDRESS, nvm)
  else if unlock_fault nvm then (NVM_ERROR_UNLOCK, nvm)
  else
    let nvm' := mkNVM (<[Z.to_nat address_offset := data]> (eeprom nvm))
                      (unlock_fault nvm) (lock_fault nvm) in
    if lock_fault nvm then (NVM_ERROR_LOCK, nvm') else (NVM_SUCCESS, nvm').

(** ** mcu_api.c *)

Definition MCU_API_MALLOC_BUFFER_SIZE : Z := 200.

Record MCU_API_context_t := mkContext {
  malloc_buf : list Z;
  timer_duration_seconds : Z
}.

(** Return codes of the MCU API ([sfx_u8] values named by macros of the
    Sigfox library headers). *)
Inductive sfx_status : Set :=
| SFX_ERR_NONE
| MCU_ERR_API_MALLOC
| MCU_ERR_API_AES
| MCU_ERR_API_GETNVMEM
| MCU_ERR_API_SETNVMEM
| MCU_ERR_API_TIMER_STOP
| MCU_ERR_API_TIMER_END.

(** [sfx_credentials_use_key_t]: the two named modes and every other
    value the enumeration type can carry. *)
Inductive sfx_credentials_use_key_t : Set :=
| CREDENTIALS_PRIVATE_KEY
| CREDENTIALS_KEY_IN_ARGUMENT
| CREDENTIALS_other (value : Z).

(** Addresses handed out by the API: a place inside the static context
    buffer, or some other object. *)
Inductive pointer : Set :=
| Ptr_malloc_buf (index : nat)
| Ptr_other (address : Z).

Definition MCU_API_malloc (size : Z) (returned_pointer : pointer) : sfx_status * pointer :=
  if size >? MCU_API_MALLOC_BUFFER_SIZE then (MCU_ERR_API_MALLOC, returned_pointer)
  else (SFX_ERR_NONE, Ptr_malloc_buf 0).

Definition MCU_API_free (ptr : pointer) (ctx : MCU_API_context_t) : sfx_status * MCU_API_context_t :=
  (SFX_ERR_NONE, ctx).

(** Access to the context buffer through a pointer: [p[i]] and [p[i] = v]. *)
Definition load (ctx : MCU_API_context_t) (p : pointer) (i : nat) : option Z :=
  match p with
  | Ptr_malloc_buf k => malloc_buf ctx !! (k + i)%nat
  | Ptr_other _ => None
  end.

Definition store (ctx : MCU_API_context_t) (p : pointer) (i : nat) (v : Z) : MCU_API_context_t :=
  match p with
  | Ptr_malloc_buf k =>
      mkContext (<[(k + i)%nat := v]> (malloc_buf ctx)) (timer_duration_seconds ctx)
  | Ptr_other _ => ctx
  end.

(** *** AES-128 CBC *)

(** One invocation of the AES core, as seen at the call site. *)
Record AES_call := mkAES_call {
  aes_data_in : list Z;
  aes_init_vector : list Z;
  aes_key : list Z;
  aes_status : Z;
  aes_data_out : list Z
}.

Section Cipher.

(** [AES_encrypt data_in data_out init_vector key] gives the status and the
    contents of [data_out] after the call (aes.c is outside the sources).
    As the parameter names of its declaration in aes.h say, the core reads
    [data_in], [init_vector] and [key] and writes [data_out] only. *)
Variable AES_encrypt : list Z -> list Z -> list Z -> list Z -> Z * list Z.

(** Key selection: the [switch (use_key)] of MCU_API_aes_128_cbc_encrypt.
    [None] is the jump to [errors]. *)
Fixpoint read_device_key (count byte_idx : nat) (nvm : NVM_t) (local_key : list Z)
    (key_byte : Z) : option (list Z) :=
  match count with
  | O => Some local_key
  | S count' =>
      let '(nvm_status, key_byte) :=
        NVM_read_byte nvm (NVM_ADDRESS_SIGFOX_DEVICE_KEY + Z.of_nat byte_idx) key_byte in
      if negb (nvm_status =? NVM_SUCCESS) then None
      else read_device_key count' (S byte_idx) nvm (<[byte_idx := key_byte]> local_key) key_byte
  end.

Definition select_key (nvm : NVM_t) (key : list Z) (use_key : sfx_credentials_use_key_t)
    : option (list Z) :=
  let local_key := replicate AES_BLOCK_SIZE 0 in
  match use_key with
  | CREDENTIALS_PRIVATE_KEY => read_device_key AES_BLOCK_SIZE 0 nvm local_key 0
  | CREDENTIALS_KEY_IN_ARGUMENT => Some (copy_bytes AES_BLOCK_SIZE 0 local_key 0 key 0)
  | CREDENTIALS_other _ => None
  end.

(** The block loop; [count] is the number of iterations still to run. *)
Fixpoint encrypt_blocks (count block_idx : nat) (local_key data_in data_out init_vector : list Z)
    (encrypted_data data_to_encrypt : list Z) (calls : list AES_call)
    : sfx_status * list Z * list AES_call :=
  match count with
  | O => (SFX_ERR_NONE, encrypted_data, calls)
  | S count' =>
      let data_in :=
        copy_bytes AES_BLOCK_SIZE 0 data_in 0 data_to_encrypt (block_idx * AES_BLOCK_SIZE) in
      let init_vector := copy_bytes AES_BLOCK_SIZE 0 init_vector 0 data_out 0 in
      let '(status, data_out) := AES_encrypt data_in data_out init_vector local_key in
      let calls := calls ++ [mkAES_call data_in init_vector local_key status data_out] in
      if negb (status =? AES_SUCCESS) then (MCU_ERR_API_AES, encrypted_data, calls)
      else
        let encrypted_data :=
          copy_bytes AES_BLOCK_SIZE 0 encrypted_data (block_idx * AES_BLOCK_SIZE) data_out 0 in
        encrypt_blocks count' (S block_idx) local_key data_in data_out init_vector
          encrypted_data data_to_encrypt calls
  end.

(** Result: the status, the contents of [encrypted_data] after the call
    and the AES invocations made, oldest first. *)
Definition MCU_API_aes_128_cbc_encrypt (nvm : NVM_t) (encrypted_data data_to_encrypt : list Z)
    (aes_block_len : Z) (key : list Z) (use_key : sfx_credentials_use_key_t)
    : sfx_status * list Z * list AES_call :=
  let init_vector := replicate AES_BLOCK_SIZE 0 in
  let data_in := replicate AES_BLOCK_SIZE 0 in
  let data_out := replicate AES_BLOCK_SIZE 0 in
  match select_key nvm key use_key with
  | None => (MCU_ERR_API_AES, encrypted_data, [])
  | Some local_key =>
      encrypt_blocks (Z.to_nat (aes_block_len / Z.of_nat AES_BLOCK_SIZE)) 0
        local_key data_in data_out init_vector encrypted_data data_to_encrypt []
  end.

(** CBC as the design describes it: the blocks are taken in order, block 0
    under the all-zero vector, each later block under the ciphertext of the
    block before it; [prev] is that previous ciphertext.  The chain stops at
    the first invocation that does not succeed. *)
Fixpoint cbc_chain (local_key prev : list Z) (blocks : list (list Z)) : list AES_call :=
  match blocks with
  | [] => []
  | plain :: rest =>
      let iv := slice prev 0 AES_BLOCK_SIZE in
      let '(status, cipher) := AES_encrypt plain prev iv local_key in
      mkAES_call plain iv local_key status cipher ::
        (if status =? AES_SUCCESS then cbc_chain local_key cipher rest else [])
  end.

End Cipher.

(** The 16-byte blocks of a message of [n] blocks. *)
Definition blocks_of (data : list Z) (n : nat) : list (list Z) :=
  map (fun i => slice data (i * AES_BLOCK_SIZE) AES_BLOCK_SIZE) (seq 0 n).

Definition call_succeeded (c : AES_call) : bool := aes_status c =? AES_SUCCESS.

(** The ciphertext bytes of the successful invocations, in order. *)
Definition ciphertext_of (calls : list AES_call) : list Z :=
  concat (map (fun c => slice (aes_data_out c) 0 AES_BLOCK_SIZE) (filter (fun c => call_succeeded c = true) calls)).

(** Status of a run of the block loop, read off the invocations made. *)
Definition chain_status (chain : list AES_call) : sfx_status :=
  if forallb call_succeeded chain then SFX_ERR_NONE else MCU_ERR_API_AES.

(** The writes of the block loop to [encrypted_data], read off the
    invocations made. *)
Fixpoint store_ciphertext (block_idx : nat) (chain : list AES_call)
    (encrypted_data : list Z) : list Z :=
  match chain with
  | [] => encrypted_data
  | c :: rest =>
      if call_succeeded c
      then store_ciphertext (S block_idx) rest
             (copy_bytes AES_BLOCK_SIZE 0 encrypted_data (block_idx * AES_BLOCK_SIZE)
                (aes_data_out c) 0)
      else encrypted_data
  end.

Definition successes (chain : list AES_call) : nat :=
  length (filter (fun c => call_succeeded c = true) chain).

(** A stand-in for the AES core, to run the functions on examples: the
    output is plaintext, vector and key XOR-ed byte by byte. *)
Definition xor_core (data_in data_out init_vector key : list Z) : Z * list Z :=
  (AES_SUCCESS,
   map (fun i => Z.lxor (Z.lxor (byte_at data_in i) (byte_at init_vector i)) (byte_at key i))
       (seq 0 AES_BLOCK_SIZE)).

(** The same core, timing out on a plaintext block that starts with 255. *)
Definition faulty_core (data_in data_out init_vector key : list Z) : Z * list Z :=
  if byte_at data_in 0 =? 255 then (AES_ERROR_TIMEOUT, data_out)
  else xor_core data_in data_out init_vector key.

(** *** Sequence-state record in non-volatile memory *)

(** Offsets inside the record buffer, as drawn in the layout comment of
    MCU_API_get_nv_mem and MCU_API_set_nv_mem (the Sigfox header naming
    them is outside the sources):
<<
    |0    1|2     3|4    5|  6   |
    |  PN  |  SEQ  |  FH  |  RL  |
>> *)
Definition SFX_NVMEM_PN : nat := 0.
Definition SFX_NVMEM_MSG_COUNTER : nat := 2.
Definition SFX_NVMEM_FH : nat := 4.
Definition SFX_NVMEM_RL : nat := 6.
Definition SFX_NVMEM_BLOCK_SIZE : nat := 7.

(** [NVM_read_byte(address, &(read_data[index]))] *)
Definition NVM_read_byte_into (nvm : NVM_t) (address : Z) (read_data : list Z) (index : nat)
    : Z * list Z :=
  let '(nvm_status, byte) := NVM_read_byte nvm address (byte_at read_data index) in
  (nvm_status, <[index := byte]> read_data).

Definition MCU_API_get_nv_mem (nvm : NVM_t) (read_data : list Z) : sfx_status * list Z :=
  let '(nvm_status, read_data) :=
    NVM_read_byte_into nvm (NVM_ADDRESS_SIGFOX_PN + 0) read_data (SFX_NVMEM_PN + 0) in
  if negb (nvm_status =? NVM_SUCCESS) then (MCU_ERR_API_GETNVMEM, read_data) else
  let '(nvm_status, read_data) :=
    NVM_read_byte_into nvm (NVM_ADDRESS_SIGFOX_PN + 1) read_data (SFX_NVMEM_PN + 1) in
  if negb (nvm_status =? NVM_SUCCESS) then (MCU_ERR_API_GETNVMEM, read_data) else
  let '(nvm_status, read_data) :=
    NVM_read_byte_into nvm (NVM_ADDRESS_SIGFOX_MESSAGE_COUNTER + 0) read_data (SFX_NVMEM_MSG_COUNTER + 0) in
  if negb (nvm_status =? NVM_SUCCESS) then (MCU_ERR_API_GETNVMEM, read_data) else
  let '(nvm_status, read_data) :=
    NVM_read_byte_into nvm (NVM_ADDRESS_SIGFOX_MESSAGE_COUNTER + 1) read_data (SFX_NVMEM_MSG_COUNTER + 1) in
  if negb (nvm_status =? NVM_SUCCESS) then (MCU_ERR_API_GETNVMEM, read_data) else
  let '(nvm_status, read_data) :=
    NVM_read_byte_into nvm (NVM_ADDRESS_SIGFOX_FH + 0) read_data (SFX_NVMEM_FH + 0) in
  if negb (nvm_status =? NVM_SUCCESS) then (MCU_ERR_API_GETNVMEM, read_data) else
  let '(nvm_status, read_data) :=
    NVM_read_byte_into nvm (NVM_ADDRESS_SIGFOX_FH + 1) read_data (SFX_NVMEM_FH + 1) in
  if negb (nvm_status =? NVM_SUCCESS) then (MCU_ERR_API_GETNVMEM, read_data) else
  let '(nvm_status, read_data) :=
    NVM_read_byte_into nvm NVM_ADDRESS_SIGFOX_RL read_data SFX_NVMEM_RL in
  if negb (nvm_status =? NVM_SUCCESS) then (MCU_ERR_API_GETNVMEM, read_data) else
  (SFX_ERR_NONE, read_data).

Definition MCU_API_set_nv_mem (nvm : NVM_t) (data_to_write : list Z) : sfx_status * NVM_t :=
  let '(nvm_status, nvm) :=
    NVM_write_byte nvm (NVM_ADDRESS_SIGFOX_PN + 0) (byte_at data_to_write (SFX_NVMEM_PN + 0)) in
  if negb (nvm_status =? NVM_SUCCESS) then (MCU_ERR_API_SETNVMEM, nvm) else
  let '(nvm_status, nvm) :=
    NVM_write_byte nvm (NVM_ADDRESS_SIGFOX_PN + 1) (byte_at data_to_write (SFX_NVMEM_PN + 1)) in
  if negb (nvm_status =? NVM_SUCCESS) then (MCU_ERR_API_SETNVMEM, nvm) else
  let '(nvm_status, nvm) :=
    NVM_write_byte nvm (NVM_ADDRESS_SIGFOX_MESSAGE_COUNTER + 0) (byte_at data_to_write (SFX_NVMEM_MSG_COUNTER + 0)) in
  if negb (nvm_status =? NVM_SUCCESS) then (MCU_ERR_API_SETNVMEM, nvm) else
  let '(nvm_status, nvm) :=
    NVM_write_byte nvm (NVM_ADDRESS_SIGFOX_MESSAGE_COUNTER + 1) (byte_at data_to_write (SFX_NVMEM_MSG_COUNTER + 1)) in
  if negb (nvm_status =? NVM_SUCCESS) then (MCU_ERR_API_SETNVMEM, nvm) else
  let '(nvm_status, nvm) :=
    NVM_write_byte nvm (NVM_ADDRESS_SIGFOX_FH + 0) (byte_at data_to_write (SFX_NVMEM_FH + 0)) in
  if negb (nvm_status =? NVM_SUCCESS) then (MCU_ERR_API_SETNVMEM, nvm) else
  let '(nvm_status, nvm) :=
    NVM_write_byte nvm (NVM_ADDRESS_SIGFOX_FH + 1) (byte_at data_to_write (SFX_NVMEM_FH + 1)) in
  if negb (nvm_status =? NVM_SUCCESS) then (MCU_ERR_API_SETNVMEM, nvm) else
  let '(nvm_status, nvm) :=
    NVM_write_byte nvm NVM_ADDRESS_SIGFOX_RL (byte_at data_to_write SFX_NVMEM_RL) in
  if negb (nvm_status =? NVM_SUCCESS) then (MCU_ERR_API_SETNVMEM, nvm) else
  (SFX_ERR_NONE, nvm).

(** *** Watchdog-bounded wait *)

(** Peripheral calls made by the timer functions, in program order. *)
Inductive MCU_event : Set :=
| IWDG_reload
| RTC_stop_wakeup_timer
| RTC_start_wakeup_timer (delay_seconds : Z)
| PWR_enter_stop_mode
| RTC_clear_wakeup_timer_flag
| EXTI_clear_all_flags.

Definition RTC_SUCCESS : Z := 0.

Definition MCU_API_timer_start (time_duration_in_s : Z) (ctx : MCU_API_context_t)
    : sfx_status * MCU_API_context_t :=
  (SFX_ERR_NONE, mkContext (malloc_buf ctx) time_duration_in_s).

Section Timer.

(** The refresh period of the independent watchdog (a macro of iwdg.h,
    outside the sources). *)
Variable IWDG_REFRESH_PERIOD_SECONDS : Z.

(** Status returned by the RTC driver for the call that ends the given
    history (rtc.c is outside the sources). *)
Variable RTC_status : list MCU_event -> Z.

Definition MCU_API_timer_stop : sfx_status * list MCU_event :=
  let trace := [RTC_stop_wakeup_timer] in
  if negb (RTC_status trace =? RTC_SUCCESS) then (MCU_ERR_API_TIMER_STOP, trace)
  else (SFX_ERR_NONE, trace).

(** The [errors:] exit of MCU_API_timer_wait_for_end. *)
Definition timer_wait_errors (trace : list MCU_event) : sfx_status * list MCU_event :=
  (MCU_ERR_API_TIMER_END, trace ++ [RTC_stop_wakeup_timer]).

(** [while (remaining_delay > 0) { ... }]; one unit of [fuel] per test of
    the loop condition, [None] when the fuel is used up. *)
Fixpoint timer_wait_loop (fuel : nat) (remaining_delay : Z) (trace : list MCU_event)
    : option (sfx_status * list MCU_event) :=
  match fuel with
  | O => None
  | S fuel' =>
      if remaining_delay >? 0 then
        let sub_delay :=
          if remaining_delay >? IWDG_REFRESH_PERIOD_SECONDS
          then IWDG_REFRESH_PERIOD_SECONDS else remaining_delay in
        let remaining_delay := u32 (remaining_delay - sub_delay) in
        let trace := trace ++ [RTC_stop_wakeup_timer] in
        if negb (RTC_status trace =? RTC_SUCCESS) then Some (timer_wait_errors trace) else
        let trace := trace ++ [RTC_start_wakeup_timer sub_delay] in
        if negb (RTC_status trace =? RTC_SUCCESS) then Some (timer_wait_errors trace) else
        let trace := trace ++ [PWR_enter_stop_mode] in
        let trace := trace ++ [IWDG_reload] in
        let trace := trace ++ [RTC_clear_wakeup_timer_flag] in
        let trace := trace ++ [EXTI_clear_all_flags] in
        timer_wait_loop fuel' remaining_delay trace
      else Some (SFX_ERR_NONE, trace)
  end.

Definition MCU_API_timer_wait_for_end (fuel : nat) (ctx : MCU_API_context_t)
    : option (sfx_status * list MCU_event) :=
  let remaining_delay := timer_duration_seconds ctx in
  timer_wait_loop fuel remaining_delay [IWDG_reload].

End Timer.

(** Readings of a trace. *)
Definition wakeup_delays (trace : list MCU_event) : list Z :=
  omap (fun e => match e with RTC_start_wakeup_timer d => Some d | _ => None end) trace.

Definition is_reload (e : MCU_event) : bool :=
  match e with IWDG_reload => true | _ => false end.

Definition watchdog_reloads (trace : list MCU_event) : nat :=
  length (List.filter is_reload trace).

(** Arming and disarming calls of the wake-up timer. *)
Definition is_timer_command (e : MCU_event) : bool :=
  match e with
  | RTC_stop_wakeup_timer | RTC_start_wakeup_timer _ => true
  | _ => false
  end.

Definition last_timer_command (trace : list MCU_event) : option MCU_event :=
  last (List.filter is_timer_command trace).


(** [timer_commands_ok RTC_status history rest]: every arming or disarming
    call among [rest], issued after [history], was answered with success. *)
Fixpoint timer_commands_ok (RTC_status : list MCU_event -> Z)
    (history rest : list MCU_event) : bool :=
  match rest with
  | [] => true
  | e :: rest' =>
      (if is_timer_command e then RTC_status (history ++ [e]) =? RTC_SUCCESS else true)
      && timer_commands_ok RTC_status (history ++ [e]) rest'
  end.

(** The decomposition of a delay the design describes: every sub-interval
    is [min remaining period], taken off [remaining] until nothing is left. *)
Fixpoint min_decomposition (period remaining : Z) (subs : list Z) : Prop :=
  match subs with
  | [] => remaining = 0
  | sub :: subs' =>
      0 < remaining /\ sub = Z.min remaining period /\
      min_decomposition period (remaining - sub) subs'
  end.

Definition sum_list (l : list Z) : Z := foldr Z.add 0 l.

Definition ceil_div (a b : Z) : Z := (a + b - 1) / b.

(** ** s2lp_hw.c *)

Inductive GPIO_pin : Set := GPIO_S2LP_CS | GPIO_S2LP_SDN.

Inductive SPI_instance : Set := SPI_INSTANCE_SPI1.

Definition S2LP_HW_SPI_INSTANCE : SPI_instance := SPI_INSTANCE_SPI1.

(** Calls made by the transport bridge, in program order. *)
Inductive S2LP_HW_event : Set :=
| GPIO_write (gpio : GPIO_pin) (state : Z)
| SPI_write_read_8 (instance : SPI_instance) (tx_data : list Z) (transfer_size : Z).

Definition S2LP_SUCCESS : Z := 0.
Definition SPI_SUCCESS : Z := 0.

(** Modelled from the spec: the macro SPI_exit_error of spi.h, which is
    outside the sources.  A non-success status of the child is added to
    the error base of the calling component and control leaves for the
    [errors] label; the result is the new [status] and whether the jump is
    taken. *)
Definition SPI_exit_error (error_base spi_status status : Z) : Z * bool :=
  if negb (spi_status =? SPI_SUCCESS) then (error_base + spi_status, true)
  else (status, false).

Section TransportBridge.

(** Error base of the SPI layer inside the S2LP status space (s2lp.h of
    the driver, outside the sources). *)
Variable S2LP_ERROR_BASE_SPI : Z.

(** Outcome of the SPI driver for the transfer that ends the given
    history: its status and the received bytes (spi.c is outside the
    sources). *)
Variable SPI_transfer : list S2LP_HW_event -> list Z -> Z * list Z.

(** Result: status, contents of [rx_data] after the call, calls made. *)
Definition S2LP_HW_spi_write_read_8 (tx_data rx_data : list Z) (transfer_size : Z)
    : Z * list Z * list S2LP_HW_event :=
  let status := S2LP_SUCCESS in
  let trace := [GPIO_write GPIO_S2LP_CS 0] in
  let trace := trace ++ [SPI_write_read_8 S2LP_HW_SPI_INSTANCE tx_data transfer_size] in
  let '(spi_status, rx_data) := SPI_transfer trace rx_data in
  let '(status, _) := SPI_exit_error S2LP_ERROR_BASE_SPI spi_status status in
  (* errors: *)
  let trace := trace ++ [GPIO_write GPIO_S2LP_CS 1] in
  (status, rx_data, trace).

End TransportBridge.

Definition is_spi_transfer (e : S2LP_HW_event) : bool :=
  match e with SPI_write_read_8 _ _ _ => true | _ => false end.

(** ** dma.c *)

(** The DMA1 register block (the fields the driver touches).  Registers
    are 32-bit memory cells; what the controller itself does to them
    between two calls is the [Hardware] step below. *)
Record DMA_registers := mkDMA {
  ISR : Z;
  IFCR : Z;
  CCR3 : Z;
  CNDTR3 : Z;
  CPAR3 : Z;
  CMAR3 : Z;
  CCR6 : Z;
  CNDTR6 : Z;
  CPAR6 : Z;
  CMAR6 : Z;
  CSELR : Z
}.

Inductive NVIC_interrupt : Set := NVIC_IT_DMA1_CH_2_3 | NVIC_IT_DMA1_CH_4_7.

Record DMA_state := mkState {
  dma1_channel3_tcif : Z;
  DMA1 : DMA_registers;
  RCC_AHBENR : Z;
  nvic_enabled : NVIC_interrupt -> bool;
  nvic_priority : NVIC_interrupt -> Z;
  neom8n_switch_dma_buffer_calls : list Z
}.

Definition set_DMA1 (s : DMA_state) (r : DMA_registers) : DMA_state :=
  mkState (dma1_channel3_tcif s) r (RCC_AHBENR s) (nvic_enabled s) (nvic_priority s)
    (neom8n_switch_dma_buffer_calls s).

Definition set_tcif (s : DMA_state) (v : Z) : DMA_state :=
  mkState v (DMA1 s) (RCC_AHBENR s) (nvic_enabled s) (nvic_priority s)
    (neom8n_switch_dma_buffer_calls s).

Definition set_AHBENR (s : DMA_state) (v : Z) : DMA_state :=
  mkState (dma1_channel3_tcif s) (DMA1 s) v (nvic_enabled s) (nvic_priority s)
    (neom8n_switch_dma_buffer_calls s).

Definition NVIC_eqb (a b : NVIC_interrupt) : bool :=
  match a, b with
  | NVIC_IT_DMA1_CH_2_3, NVIC_IT_DMA1_CH_2_3 => true
  | NVIC_IT_DMA1_CH_4_7, NVIC_IT_DMA1_CH_4_7 => true
  | _, _ => false
  end.

Definition NVIC_enable_interrupt (it : NVIC_interrupt) (s : DMA_state) : DMA_state :=
  mkState (dma1_channel3_tcif s) (DMA1 s) (RCC_AHBENR s)
    (fun i => if NVIC_eqb i it then true else nvic_enabled s i) (nvic_priority s)
    (neom8n_switch_dma_buffer_calls s).

Definition NVIC_disable_interrupt (it : NVIC_interrupt) (s : DMA_state) : DMA_state :=
  mkState (dma1_channel3_tcif s) (DMA1 s) (RCC_AHBENR s)
    (fun i => if NVIC_eqb i it then false else nvic_enabled s i) (nvic_priority s)
    (neom8n_switch_dma_buffer_calls s).

Definition NVIC_set_priority (it : NVIC_interrupt) (priority : Z) (s : DMA_state) : DMA_state :=
  mkState (dma1_channel3_tcif s) (DMA1 s) (RCC_AHBENR s) (nvic_enabled s)
    (fun i => if NVIC_eqb i it then priority else nvic_priority s i)
    (neom8n_switch_dma_buffer_calls s).

Definition NEOM8N_switch_dma_buffer (line_end_flag : Z) (s : DMA_state) : DMA_state :=
  mkState (dma1_channel3_tcif s) (DMA1 s) (RCC_AHBENR s) (nvic_enabled s) (nvic_priority s)
    (neom8n_switch_dma_buffer_calls s ++ [line_end_flag]).

(** Field updates of the register block. *)
Definition with_IFCR (r : DMA_registers) (v : Z) : DMA_registers :=
  mkDMA (ISR r) v (CCR3 r) (CNDTR3 r) (CPAR3 r) (CMAR3 r) (CCR6 r) (CNDTR6 r) (CPAR6 r) (CMAR6 r) (CSELR r).
Definition with_CCR3 (r : DMA_registers) (v : Z) : DMA_registers :=
  mkDMA (ISR r) (IFCR r) v (CNDTR3 r) (CPAR3 r) (CMAR3 r) (CCR6 r) (CNDTR6 r) (CPAR6 r) (CMAR6 r) (CSELR r).
Definition with_CNDTR3 (r : DMA_registers) (v : Z) : DMA_registers :=
  mkDMA (ISR r) (IFCR r) (CCR3 r) v (CPAR3 r) (CMAR3 r) (CCR6 r) (CNDTR6 r) (CPAR6 r) (CMAR6 r) (CSELR r).
Definition with_CPAR3 (r : DMA_registers) (v : Z) : DMA_registers :=
  mkDMA (ISR r) (IFCR r) (CCR3 r) (CNDTR3 r) v (CMAR3 r) (CCR6 r) (CNDTR6 r) (CPAR6 r) (CMAR6 r) (CSELR r).
Definition with_CMAR3 (r : DMA_registers) (v : Z) : DMA_registers :=
  mkDMA (ISR r) (IFCR r) (CCR3 r) (CNDTR3 r) (CPAR3 r) v (CCR6 r) (CNDTR6 r) (CPAR6 r) (CMAR6 r) (CSELR r).
Definition with_CCR6 (r : DMA_registers) (v : Z) : DMA_registers :=
  mkDMA (ISR r) (IFCR r) (CCR3 r) (CNDTR3 r) (CPAR3 r) (CMAR3 r) v (CNDTR6 r) (CPAR6 r) (CMAR6 r) (CSELR r).
Definition with_CNDTR6 (r : DMA_registers) (v : Z) : DMA_registers :=
  mkDMA (ISR r) (IFCR r) (CCR3 r) (CNDTR3 r) (CPAR3 r) (CMAR3 r) (CCR6 r) v (CPAR6 r) (CMAR6 r) (CSELR r).
Definition with_CPAR6 (r : DMA_registers) (v : Z) : DMA_registers :=
  mkDMA (ISR r) (IFCR r) (CCR3 r) (CNDTR3 r) (CPAR3 r) (CMAR3 r) (CCR6 r) (CNDTR6 r) v (CMAR6 r) (CSELR r).
Definition with_CMAR6 (r : DMA_registers) (v : Z) : DMA_registers :=
  mkDMA (ISR r) (IFCR r) (CCR3 r) (CNDTR3 r) (CPAR3 r) (CMAR3 r) (CCR6 r) (CNDTR6 r) (CPAR6 r) v (CSELR r).
Definition with_CSELR (r : DMA_registers) (v : Z) : DMA_registers :=
  mkDMA (ISR r) (IFCR r) (CCR3 r) (CNDTR3 r) (CPAR3 r) (CMAR3 r) (CCR6 r) (CNDTR6 r) (CPAR6 r) (CMAR6 r) v.

(** [~x] on a 32-bit operand. *)
Definition not32 (x : Z) : Z := u32 (Z.lnot x).

(** Address of [SPI1 -> DR]: base 0x40013000, fourth 32-bit register
    (spi_reg.h). *)
Definition SPI1_DR_address : Z := 0x40013000 + 12.

Definition DMA1_Channel2_3_IRQHandler (s : DMA_state) : DMA_state :=
  if negb (Z.land (ISR (DMA1 s)) (Z.shiftl 1 9) =? 0) then
    let s :=
      if negb (Z.land (CCR3 (DMA1 s)) (Z.shiftl 1 1) =? 0) then set_tcif s 1 else s in
    set_DMA1 s (with_IFCR (DMA1 s) (Z.lor (IFCR (DMA1 s)) (Z.shiftl 1 9)))
  else s.

Definition DMA1_Channel4_5_6_7_IRQHandler (s : DMA_state) : DMA_state :=
  if negb (Z.land (ISR (DMA1 s)) (Z.shiftl 1 21) =? 0) then
    let s :=
      if negb (Z.land (CCR6 (DMA1 s)) (Z.shiftl 1 1) =? 0)
      then NEOM8N_switch_dma_buffer 0 s else s in
    set_DMA1 s (with_IFCR (DMA1 s) (Z.lor (IFCR (DMA1 s)) (Z.shiftl 1 21)))
  else s.

Definition DMA1_init_channel3 (s : DMA_state) : DMA_state :=
  let s := set_AHBENR s (Z.lor (RCC_AHBENR s) (Z.shiftl 1 0)) in
  let s := set_DMA1 s (with_CCR3 (DMA1 s) (Z.lor (CCR3 (DMA1 s)) (Z.shiftl 3 12))) in
  let s := set_DMA1 s (with_CCR3 (DMA1 s) (Z.lor (CCR3 (DMA1 s)) (Z.shiftl 1 7))) in
  let s := set_DMA1 s (with_CCR3 (DMA1 s) (Z.lor (CCR3 (DMA1 s)) (Z.shiftl 1 1))) in
  let s := set_DMA1 s (with_CCR3 (DMA1 s) (Z.lor (CCR3 (DMA1 s)) (Z.shiftl 1 4))) in
  let s := set_DMA1 s (with_CPAR3 (DMA1 s) SPI1_DR_address) in
  let s := set_DMA1 s (with_CSELR (DMA1 s) (Z.land (CSELR (DMA1 s)) (not32 (Z.shiftl 15 8)))) in
  let s := set_DMA1 s (with_CSELR (DMA1 s) (Z.lor (CSELR (DMA1 s)) (Z.shiftl 1 8))) in
  let s := set_DMA1 s (with_IFCR (DMA1 s) (Z.lor (IFCR (DMA1 s)) 0x00000F00)) in
  NVIC_set_priority NVIC_IT_DMA1_CH_2_3 1 s.

Definition DMA1_start_channel3 (s : DMA_state) : DMA_state :=
  let s := set_tcif s 0 in
  let s := set_DMA1 s (with_IFCR (DMA1 s) (Z.lor (IFCR (DMA1 s)) 0x00000F00)) in
  let s := NVIC_enable_interrupt NVIC_IT_DMA1_CH_2_3 s in
  set_DMA1 s (with_CCR3 (DMA1 s) (Z.lor (CCR3 (DMA1 s)) (Z.shiftl 1 0))).

Definition DMA1_stop_channel3 (s : DMA_state) : DMA_state :=
  let s := set_tcif s 0 in
  let s := set_DMA1 s (with_CCR3 (DMA1 s) (Z.land (CCR3 (DMA1 s)) (not32 (Z.shiftl 1 0)))) in
  NVIC_disable_interrupt NVIC_IT_DMA1_CH_2_3 s.

Definition DMA1_set_channel3_source_addr (source_buf_addr source_buf_size : Z) (s : DMA_state)
    : DMA_state :=
  let s := set_DMA1 s (with_CMAR3 (DMA1 s) source_buf_addr) in
  let s := set_DMA1 s (with_CNDTR3 (DMA1 s) source_buf_size) in
  set_DMA1 s (with_IFCR (DMA1 s) (Z.lor (IFCR (DMA1 s)) 0x00000F00)).


Section DMAChannel6.

(** Address of [LPUART1 -> RDR] (lpuart_reg.h is outside the sources). *)
Variable LPUART1_RDR_address : Z.

Definition DMA1_init_channel6 (s : DMA_state) : DMA_state :=
  let s := set_AHBENR s (Z.lor (RCC_AHBENR s) (Z.shiftl 1 0)) in
  let s := set_DMA1 s (with_CCR6 (DMA1 s) (Z.lor (CCR6 (DMA1 s)) (Z.shiftl 3 12))) in
  let s := set_DMA1 s (with_CCR6 (DMA1 s) (Z.lor (CCR6 (DMA1 s)) (Z.shiftl 1 7))) in
  let s := set_DMA1 s (with_CCR6 (DMA1 s) (Z.lor (CCR6 (DMA1 s)) (Z.shiftl 1 1))) in
  let s := set_DMA1 s (with_CCR6 (DMA1 s) (Z.land (CCR6 (DMA1 s)) (not32 (Z.shiftl 1 4)))) in
  let s := set_DMA1 s (with_CPAR6 (DMA1 s) LPUART1_RDR_address) in
  let s := set_DMA1 s (with_CSELR (DMA1 s) (Z.land (CSELR (DMA1 s)) (not32 (Z.shiftl 15 20)))) in
  let s := set_DMA1 s (with_CSELR (DMA1 s) (Z.lor (CSELR (DMA1 s)) (Z.shiftl 5 20))) in
  let s := set_DMA1 s (with_IFCR (DMA1 s) (Z.lor (IFCR (DMA1 s)) 0x00F00000)) in
  NVIC_set_priority NVIC_IT_DMA1_CH_4_7 1 s.

End DMAChannel6.

Definition DMA1_start_channel6 (s : DMA_state) : DMA_state :=
  let s := set_DMA1 s (with_IFCR (DMA1 s) (Z.lor (IFCR (DMA1 s)) 0x00F00000)) in
  let s := NVIC_enable_interrupt NVIC_IT_DMA1_CH_4_7 s in
  set_DMA1 s (with_CCR6 (DMA1 s) (Z.lor (CCR6 (DMA1 s)) (Z.shiftl 1 0))).

Definition DMA1_stop_channel6 (s : DMA_state) : DMA_state :=
  let s := set_DMA1 s (with_CCR6 (DMA1 s) (Z.land (CCR6 (DMA1 s)) (not32 (Z.shiftl 1 0)))) in
  NVIC_disable_interrupt NVIC_IT_DMA1_CH_4_7 s.

Definition DMA1_set_channel6_dest_addr (dest_buf_addr dest_buf_size : Z) (s : DMA_state)
    : DMA_state :=
  let s := set_DMA1 s (with_CMAR6 (DMA1 s) dest_buf_addr) in
  let s := set_DMA1 s (with_CNDTR6 (DMA1 s) dest_buf_size) in
  set_DMA1 s (with_IFCR (DMA1 s) (Z.lor (IFCR (DMA1 s)) 0x00F00000)).

Definition DMA1_disable (s : DMA_state) : DMA_state :=
  let s := NVIC_disable_interrupt NVIC_IT_DMA1_CH_2_3 s in
  let s := NVIC_disable_interrupt NVIC_IT_DMA1_CH_4_7 s in
  let s := set_DMA1 s (with_IFCR (DMA1 s) (Z.lor (IFCR (DMA1 s)) 0x0FFFFFFF)) in
  set_AHBENR s (Z.land (RCC_AHBENR s) (not32 (Z.shiftl 1 0))).

(** Everything that can happen to the driver state: a call of one of
    the functions of dma.c from the main flow, an interrupt entering one of
    the two handlers, or the controller changing its own registers. *)
Inductive DMA_step : Type :=
| Irq_DMA1_Channel2_3
| Irq_DMA1_Channel4_5_6_7
| Call_DMA1_init_channel3
| Call_DMA1_start_channel3
| Call_DMA1_stop_channel3
| Call_DMA1_set_channel3_source_addr (source_buf_addr source_buf_size : Z)
| Call_DMA1_get_channel3_status
| Call_DMA1_init_channel6 (LPUART1_RDR_address : Z)
| Call_DMA1_start_channel6
| Call_DMA1_stop_channel6
| Call_DMA1_set_channel6_dest_addr (dest_buf_addr dest_buf_size : Z)
| Call_DMA1_disable
| Hardware (registers : DMA_registers).

Definition DMA_exec (step : DMA_step) (s : DMA_state) : DMA_state :=
  match step with
  | Irq_DMA1_Channel2_3 => DMA1_Channel2_3_IRQHandler s
  | Irq_DMA1_Channel4_5_6_7 => DMA1_Channel4_5_6_7_IRQHandler s
  | Call_DMA1_init_channel3 => DMA1_init_channel3 s
  | Call_DMA1_start_channel3 => DMA1_start_channel3 s
  | Call_DMA1_stop_channel3 => DMA1_stop_channel3 s
  | Call_DMA1_set_channel3_source_addr a n => DMA1_set_channel3_source_addr a n s
  | Call_DMA1_get_channel3_status => s
  | Call_DMA1_init_channel6 rdr => DMA1_init_channel6 rdr s
  | Call_DMA1_start_channel6 => DMA1_start_channel6 s
  | Call_DMA1_stop_channel6 => DMA1_stop_channel6 s
  | Call_DMA1_set_channel6_dest_addr a n => DMA1_set_channel6_dest_addr a n s
  | Call_DMA1_disable => DMA1_disable s
  | Hardware r => set_DMA1 s r
  end.

Definition DMA_run (steps : list DMA_step) (s : DMA_state) : DMA_state :=
  foldl (fun s step => DMA_exec step s) s steps.

(** State at reset: the flag is a zero-initialised static, registers and
    interrupt controller are cleared. *)
Definition DMA_reset_state : DMA_state :=
  mkState 0 (mkDMA 0 0 0 0 0 0 0 0 0 0 0) 0 (fun _ => false) (fun _ => 0) [].




(** ** mcu_api.c, the remaining functions *)

(** Values an [sfx_u8] return code takes in the functions below: those of
    [sfx_status] and three more macros of the Sigfox headers. *)
Inductive MCU_API_status : Set :=
| Code (status : sfx_status)
| MCU_ERR_API_VOLT_TEMP
| MCU_ERR_API_DLY
| MCU_ERR_API_GET_ID_PAYLOAD_ENCR_FLAG.

Definition SFX_FALSE : Z := 0.
Definition SFX_TRUE : Z := 1.

(** Conversions to the narrower integer types of the API. *)
Definition u16 (x : Z) : Z := x mod 2 ^ 16.
Definition s8 (x : Z) : Z := (x + 2 ^ 7) mod 2 ^ 8 - 2 ^ 7.
Definition s16 (x : Z) : Z := (x + 2 ^ 15) mod 2 ^ 16 - 2 ^ 15.

(** *** Device identifier *)

(** Length of the device identifier: the field of nvm.h that starts at
    NVM_ADDRESS_SIGFOX_DEVICE_ID and ends before the device key at
    address 4 (the macro itself is in a Sigfox header outside the
    sources). *)
Definition ID_LENGTH : nat := 4.

(** [for (byte_idx = b ; byte_idx < ID_LENGTH ; byte_idx++)] of
    MCU_API_get_device_id_and_payload_encryption_flag. *)
Fixpoint read_device_id (count byte_idx : nat) (nvm : NVM_t) (dev_id : list Z)
    : MCU_API_status * list Z :=
  match count with
  | O => (Code SFX_ERR_NONE, dev_id)
  | S count' =>
      let '(nvm_status, dev_id) :=
        NVM_read_byte_into nvm (NVM_ADDRESS_SIGFOX_DEVICE_ID + Z.of_nat byte_idx)
          dev_id byte_idx in
      if negb (nvm_status =? NVM_SUCCESS)
      then (MCU_ERR_API_GET_ID_PAYLOAD_ENCR_FLAG, dev_id)
      else read_device_id count' (S byte_idx) nvm dev_id
  end.

(** Result: status, contents of [dev_id] and of
    [*payload_encryption_enabled] after the call. *)
Definition MCU_API_get_device_id_and_payload_encryption_flag (nvm : NVM_t)
    (dev_id : list Z) (payload_encryption_enabled : Z) : MCU_API_status * list Z * Z :=
  let payload_encryption_enabled := SFX_FALSE in
  let '(status, dev_id) := read_device_id ID_LENGTH 0 nvm dev_id in
  (status, dev_id, payload_encryption_enabled).

(** *** Inter-frame delay *)

Inductive sfx_delay_t : Set :=
| SFX_DLY_INTER_FRAME_TX
| SFX_DLY_INTER_FRAME_TRX
| SFX_DLY_OOB_ACK
| SFX_DLY_CS_SLEEP
| SFX_DLY_other (value : Z).

Inductive LPTIM_event : Set :=
| LPTIM1_delay_milliseconds (delay_ms : Z) (stop_mode : Z).

Definition LPTIM_SUCCESS : Z := 0.

Section Delay.

(** Status returned by the low-power timer driver for the call that ends
    the given history (lptim.c is outside the sources). *)
Variable LPTIM_status : list LPTIM_event -> Z.

(** One [case] of the switch: the delay call and its check. *)
Definition delay_case (delay_ms : Z) : MCU_API_status * list LPTIM_event :=
  let trace := [LPTIM1_delay_milliseconds delay_ms 1] in
  let lptim1_status := LPTIM_status trace in
  if negb (lptim1_status =? LPTIM_SUCCESS) then (MCU_ERR_API_DLY, trace)
  else (Code SFX_ERR_NONE, trace).

Definition MCU_API_delay (delay_type : sfx_delay_t) : MCU_API_status * list LPTIM_event :=
  match delay_type with
  | SFX_DLY_INTER_FRAME_TX => delay_case 500
  | SFX_DLY_INTER_FRAME_TRX => delay_case 500
  | SFX_DLY_OOB_ACK => delay_case 2000
  | SFX_DLY_CS_SLEEP => delay_case 1000
  | SFX_DLY_other _ => (MCU_ERR_API_DLY, [])
  end.

End Delay.

(** *** Voltage and temperature *)

Inductive ADC_data_index : Set := ADC_DATA_INDEX_VMCU_MV.

(** Calls into the ADC driver, in program order. *)
Inductive ADC_event : Set :=
| ADC1_power_on
| ADC1_perform_measurements
| ADC1_power_off
| ADC1_get_data (index : ADC_data_index)
| ADC1_get_tmcu.

Definition ADC_SUCCESS : Z := 0.

Section VoltageTemperature.

(** Answer of the ADC driver to the call that ends the given history: its
    status and, for the two getters, the value the variable they are
    given holds after the call (this version of adc.c is outside the
    sources). *)
Variable ADC_answer : list ADC_event -> Z * Z.

(** The [errors:] exit. *)
Definition voltage_temperature_errors (trace : list ADC_event)
    (voltage_idle voltage_tx temperature : Z)
    : MCU_API_status * (Z * Z * Z) * list ADC_event :=
  (MCU_ERR_API_VOLT_TEMP, (voltage_idle, voltage_tx, temperature), trace ++ [ADC1_power_off]).

(** Result: status, the three output values after the call, calls made. *)
Definition MCU_API_get_voltage_temperature (voltage_idle voltage_tx temperature : Z)
    : MCU_API_status * (Z * Z * Z) * list ADC_event :=
  let trace := [ADC1_power_on] in
  let adc1_status := fst (ADC_answer trace) in
  if negb (adc1_status =? ADC_SUCCESS)
  then voltage_temperature_errors trace voltage_idle voltage_tx temperature else
  let trace := trace ++ [ADC1_perform_measurements] in
  let adc1_status := fst (ADC_answer trace) in
  if negb (adc1_status =? ADC_SUCCESS)
  then voltage_temperature_errors trace voltage_idle voltage_tx temperature else
  let trace := trace ++ [ADC1_power_off] in
  let trace := trace ++ [ADC1_get_data ADC_DATA_INDEX_VMCU_MV] in
  let '(adc1_status, mcu_supply_voltage_mv) := ADC_answer trace in
  if negb (adc1_status =? ADC_SUCCESS)
  then voltage_temperature_errors trace voltage_idle voltage_tx temperature else
  let voltage_idle := u16 (u32 mcu_supply_voltage_mv) in
  let voltage_tx := u16 (u32 mcu_supply_voltage_mv) in
  let trace := trace ++ [ADC1_get_tmcu] in
  let mcu_temperature_degrees := s8 (snd (ADC_answer trace)) in
  let temperature := s16 (s16 mcu_temperature_degrees * 10) in
  (Code SFX_ERR_NONE, (voltage_idle, voltage_tx, temperature), trace).

End VoltageTemperature.

(** The analog supply is off at the end of a trace when the last power
    command in it is ADC1_power_off. *)
Definition is_power_command (e : ADC_event) : bool :=
  match e with ADC1_power_on | ADC1_power_off => true | _ => false end.

Definition analog_supply_off (trace : list ADC_event) : bool :=
  match last (List.filter is_power_command trace) with
  | Some ADC1_power_off => true
  | _ => false
  end.

(** *** Shape of a wait *)


(** ** dma.c: configuration of the channels *)






(** Steps that belong to channel 3, and to channel 6. *)
Definition is_channel3_step (step : DMA_step) : bool :=
  match step with
  | Irq_DMA1_Channel2_3 | Call_DMA1_init_channel3 | Call_DMA1_start_channel3
  | Call_DMA1_stop_channel3 | Call_DMA1_set_channel3_source_addr _ _
  | Call_DMA1_get_channel3_status => true
  | _ => false
  end.

Definition is_channel6_step (step : DMA_step) : bool :=
  match step with
  | Irq_DMA1_Channel4_5_6_7 | Call_DMA1_init_channel6 _ | Call_DMA1_start_channel6
  | Call_DMA1_stop_channel6 | Call_DMA1_set_channel6_dest_addr _ _ => true
  | _ => false
  end.

(** TCIE bit of CCR6 and TCIF6 bit of ISR. *)
Definition channel6_tcie (s : DMA_state) : bool := Z.testbit (CCR6 (DMA1 s)) 1.
Definition channel6_tcif6 (s : DMA_state) : bool := Z.testbit (ISR (DMA1 s)) 21.

(** What belongs to channel 3: its registers, its four bits of the
    channel-selection register, the completion flag and the line of the
    interrupt controller. *)
Definition channel3_view (s : DMA_state) :=
  (CCR3 (DMA1 s), CNDTR3 (DMA1 s), CPAR3 (DMA1 s), CMAR3 (DMA1 s),
   map (Z.testbit (CSELR (DMA1 s))) [8; 9; 10; 11],
   dma1_channel3_tcif s,
   nvic_enabled s NVIC_IT_DMA1_CH_2_3, nvic_priority s NVIC_IT_DMA1_CH_2_3).

(** What belongs to channel 6, with the buffer switches asked from the
    GPS driver. *)
Definition channel6_view (s : DMA_state) :=
  (CCR6 (DMA1 s), CNDTR6 (DMA1 s), CPAR6 (DMA1 s), CMAR6 (DMA1 s),
   map (Z.testbit (CSELR (DMA1 s))) [20; 21; 22; 23],
   neom8n_switch_dma_buffer_calls s,
   nvic_enabled s NVIC_IT_DMA1_CH_4_7, nvic_priority s NVIC_IT_DMA1_CH_4_7).

Definition is_irq_4_7 (step : DMA_step) : bool :=
  match step with Irq_DMA1_Channel4_5_6_7 => true | _ => false end.

(** Number of channel 4-7 interrupts of a run that find both TCIF6 and
    TCIE6 set. *)
Fixpoint buffer_switches (steps : list DMA_step) (s : DMA_state) : nat :=
  match steps with
  | [] => 0%nat
  | step :: steps =>
      ((if is_irq_4_7 step && channel6_tcif6 s && channel6_tcie s then 1 else 0)
       + buffer_switches steps (DMA_exec step s))%nat
  end.



(** ** at.c: command and reply buffers *)

Definition AT_COMMAND_BUFFER_SIZE : Z := 128.
Definition AT_REPLY_BUFFER_SIZE : Z := 128.

(** The command and reply parts of AT_context_t (the parser context is
    used by the decoder only).  Characters are kept as their 8-bit
    patterns. *)
Record AT_context_t := mkAT {
  command : list Z;
  command_size : Z;
  line_end_flag : Z;
  reply : list Z;
  reply_size : Z
}.

(** [a[idx] = v] on an array with the given contents; [None] when the
    index is outside the array, where C does not define the write. *)
Definition array_write (a : list Z) (idx v : Z) : option (list Z) :=
  if (0 <=? idx) && (idx <? Z.of_nat (length a))
  then Some (<[Z.to_nat idx := v]> a) else None.

Section ATBuffers.

(** Character codes of string.h, which is outside the sources. *)
Variables STRING_CHAR_CR STRING_CHAR_LF STRING_CHAR_NULL : Z.

Definition _AT_fill_rx_buffer (rx_byte : Z) (at_ctx : AT_context_t) : option AT_context_t :=
  if line_end_flag at_ctx =? 0 then
    if (rx_byte =? STRING_CHAR_CR) || (rx_byte =? STRING_CHAR_LF) then
      match array_write (command at_ctx) (command_size at_ctx) STRING_CHAR_NULL with
      | Some command' =>
          Some (mkAT command' (command_size at_ctx) 1 (reply at_ctx) (reply_size at_ctx))
      | None => None
      end
    else
      match array_write (command at_ctx) (command_size at_ctx) rx_byte with
      | Some command' =>
          Some (mkAT command' (u32 (command_size at_ctx + 1) mod AT_COMMAND_BUFFER_SIZE)
                  (line_end_flag at_ctx) (reply at_ctx) (reply_size at_ctx))
      | None => None
      end
  else Some at_ctx.

(** The USART2 receive interrupt hands every incoming byte to
    _AT_fill_rx_buffer (the callback registered by AT_init). *)
Fixpoint AT_receive_bytes (rx_bytes : list Z) (at_ctx : AT_context_t) : option AT_context_t :=
  match rx_bytes with
  | [] => Some at_ctx
  | rx_byte :: rx_bytes =>
      match _AT_fill_rx_buffer rx_byte at_ctx with
      | Some at_ctx => AT_receive_bytes rx_bytes at_ctx
      | None => None
      end
  end.

Definition is_line_end (rx_byte : Z) : bool :=
  (rx_byte =? STRING_CHAR_CR) || (rx_byte =? STRING_CHAR_LF).

End ATBuffers.

Definition _AT_reply_add_char (character : Z) (at_ctx : AT_context_t) : option AT_context_t :=
  match array_write (reply at_ctx) (reply_size at_ctx) character with
  | Some reply' =>
      Some (mkAT (command at_ctx) (command_size at_ctx) (line_end_flag at_ctx) reply'
              (u32 (reply_size at_ctx + 1) mod AT_REPLY_BUFFER_SIZE))
  | None => None
  end.

(** [while ( *tx_string) _AT_reply_add_char( *(tx_string++));] on the
    characters found from the pointer on; the list ends where the
    terminating zero stands, and a zero inside it ends the loop as well. *)
Fixpoint _AT_reply_add_string (tx_string : list Z) (at_ctx : AT_context_t)
    : option AT_context_t :=
  match tx_string with
  | [] => Some at_ctx
  | character :: tx_string =>
      if character =? 0 then Some at_ctx
      else
        match _AT_reply_add_char character at_ctx with
        | Some at_ctx => _AT_reply_add_string tx_string at_ctx
        | None => None
        end
  end.

(** ["\r\n"] *)
Definition AT_REPLY_END : list Z := [13; 10].

(** Call of the USART2 driver: the array handed over and the number of
    bytes to send from it. *)
Inductive USART_event : Type :=
| USART2_write (data : list Z) (data_size_bytes : Z).

(** Result: the context and the call made to the driver (its status is
    only stacked).  *)
Definition _AT_reply_send (at_ctx : AT_context_t) : option (AT_context_t * list USART_event) :=
  match _AT_reply_add_string AT_REPLY_END at_ctx with
  | Some at_ctx =>
      let trace := [USART2_write (reply at_ctx) (reply_size at_ctx)] in
      Some (mkAT (command at_ctx) (command_size at_ctx) (line_end_flag at_ctx) (reply at_ctx) 0,
            trace)
  | None => None
  end.

(** Bytes a USART2_write call designates. *)
Definition bytes_written (e : USART_event) : list Z :=
  match e with USART2_write data size => take (Z.to_nat size) data end.

(** Writing bytes one after the other into an array used as a ring:
    [a[size] = b; size = (size + 1) % modulus]. *)
Fixpoint ring_store (modulus : Z) (a : list Z) (size : Z) (bytes : list Z)
    : option (list Z * Z) :=
  match bytes with
  | [] => Some (a, size)
  | b :: bytes =>
      match array_write a size b with
      | Some a => ring_store modulus a (u32 (size + 1) mod modulus) bytes
      | None => None
      end
  end.

(** Both arrays have their declared size and both indexes are inside. *)
Definition AT_context_ok (at_ctx : AT_context_t) : Prop :=
  length (command at_ctx) = Z.to_nat AT_COMMAND_BUFFER_SIZE /\
  0 <= command_size at_ctx < AT_COMMAND_BUFFER_SIZE /\
  length (reply at_ctx) = Z.to_nat AT_REPLY_BUFFER_SIZE /\
  0 <= reply_size at_ctx < AT_REPLY_BUFFER_SIZE.

(** ** adc.c: the two forms of the MCU temperature *)

Definition u8 (x : Z) : Z := x mod 2 ^ 8.

(** The end of ADC1_ComputeTmcu: the sign and magnitude form
    [adc_tmcu_degrees_comp1] (unsigned char) computed from the two's
    complement form [adc_tmcu_degrees_comp2] (signed char). *)
Definition adc_tmcu_degrees_comp1_of (adc_tmcu_degrees_comp2 : Z) : Z :=
  let adc_tmcu_degrees_comp1 := 0 in
  if adc_tmcu_degrees_comp2 <? 0 then
    let adc_tmcu_degrees_comp1 := u8 (Z.lor adc_tmcu_degrees_comp1 0x80) in
    let temperature_abs := u8 ((-1) * adc_tmcu_degrees_comp2) in
    u8 (Z.lor adc_tmcu_degrees_comp1 (Z.land temperature_abs 0x7F))
  else u8 (Z.land adc_tmcu_degrees_comp2 0x7F).

(** Value of a byte read as sign (bit 7) and magnitude (bits 0-6). *)
Definition sign_magnitude_value (byte : Z) : Z :=
  if Z.testbit byte 7 then - Z.land byte 0x7F else Z.land byte 0x7F.

Definition sign_magnitude_check (adc_tmcu_degrees_comp2 : Z) : bool :=
  let adc_tmcu_degrees_comp1 := adc_tmcu_degrees_comp1_of adc_tmcu_degrees_comp2 in
  (0 <=? adc_tmcu_degrees_comp1) && (adc_tmcu_degrees_comp1 <=? 255) &&
  Bool.eqb (Z.testbit adc_tmcu_degrees_comp1 7) (adc_tmcu_degrees_comp2 <? 0) &&
  (Z.land adc_tmcu_degrees_comp1 0x7F =? Z.abs adc_tmcu_degrees_comp2 mod 128) &&
  ((adc_tmcu_degrees_comp2 =? -128) ||
   (sign_magnitude_value adc_tmcu_degrees_comp1 =? adc_tmcu_degrees_comp2)).

(** ** Non-volatile memory: what a write of the record leaves alone *)

(** The fault state, the size, and every byte outside the record. *)
Definition nvm_frame (nvm nvm' : NVM_t) : Prop :=
  unlock_fault nvm' = unlock_fault nvm /\
  lock_fault nvm' = lock_fault nvm /\
  length (eeprom nvm') = length (eeprom nvm) /\
  forall a : nat,
    (a < Z.to_nat NVM_ADDRESS_SIGFOX_PN \/ Z.to_nat NVM_ADDRESS_LAST <= a)%nat ->
    eeprom nvm' !! a = eeprom nvm !! a.


(** * Properties *)

(** ** Bit tests on registers *)

Lemma land_bit_test (x : Z) (n : Z) :
  0 <= n -> (Z.land x (Z.shiftl 1 n) =? 0) = negb (Z.testbit x n).
Proof.
  intros Hn. rewrite Z.shiftl_1_l.
  destruct (Z.testbit x n) eqn:Hb; simpl.
  - apply Z.eqb_neq. intros H0.
    assert (Hbit : Z.testbit (Z.land x (2 ^ n)) n = true).
    { rewrite Z.land_spec, Hb, Z.pow2_bits_true; auto. }
    rewrite H0, Z.bits_0 in Hbit. discriminate.
  - apply Z.eqb_eq. apply Z.bits_inj'. intros m Hm.
    rewrite Z.land_spec, Z.bits_0.
    destruct (Z.eq_dec m n) as [->|Hne].
    + rewrite Hb. reflexivity.
    + rewrite (Z.pow2_bits_false n m) by lia. apply andb_false_r.
Qed.



(** ** Allocator *)

(** C9.  MCU_API_malloc succeeds exactly for sizes up to
    MCU_API_MALLOC_BUFFER_SIZE (200 bytes); every successful call returns
    the address of the first byte of the one static buffer, so that a byte
    stored through the pointer of one successful allocation is read back
    through the pointer of any other; a failing call leaves the caller's
    pointer as it was.  MCU_API_free changes nothing and returns success. *)
Theorem MCU_API_malloc_static_buffer :
  MCU_API_MALLOC_BUFFER_SIZE = 200 /\
  (forall size p,
     fst (MCU_API_malloc size p) = SFX_ERR_NONE <-> size <= MCU_API_MALLOC_BUFFER_SIZE) /\
  (forall size p,
     size <= MCU_API_MALLOC_BUFFER_SIZE ->
     MCU_API_malloc size p = (SFX_ERR_NONE, Ptr_malloc_buf 0)) /\
  (forall size p,
     MCU_API_MALLOC_BUFFER_SIZE < size ->
     MCU_API_malloc size p = (MCU_ERR_API_MALLOC, p)) /\
  (forall size1 size2 p1 p2 ctx (i : nat) v,
     fst (MCU_API_malloc size1 p1) = SFX_ERR_NONE ->
     fst (MCU_API_malloc size2 p2) = SFX_ERR_NONE ->
     (i < length (malloc_buf ctx))%nat ->
     snd (MCU_API_malloc size1 p1) = snd (MCU_API_malloc size2 p2) /\
     load (store ctx (snd (MCU_API_malloc size1 p1)) i v)
          (snd (MCU_API_malloc size2 p2)) i = Some v) /\
  (forall ptr ctx, MCU_API_free ptr ctx = (SFX_ERR_NONE, ctx)).
Proof.
  assert (Hok : forall size p, size <= MCU_API_MALLOC_BUFFER_SIZE ->
                  MCU_API_malloc size p = (SFX_ERR_NONE, Ptr_malloc_buf 0)).
  { intros size p H. unfold MCU_API_malloc.
    destruct (Z.gtb_spec size MCU_API_MALLOC_BUFFER_SIZE); [lia | reflexivity]. }
  assert (Hko : forall size p, MCU_API_MALLOC_BUFFER_SIZE < size ->
                  MCU_API_malloc size p = (MCU_ERR_API_MALLOC, p)).
  { intros size p H. unfold MCU_API_malloc.
    destruct (Z.gtb_spec size MCU_API_MALLOC_BUFFER_SIZE); [reflexivity | lia]. }
  assert (Hiff : forall size p,
             fst (MCU_API_malloc size p) = SFX_ERR_NONE <-> size <= MCU_API_MALLOC_BUFFER_SIZE).
  { intros size p. split.
    - intros H. destruct (Z_le_gt_dec size MCU_API_MALLOC_BUFFER_SIZE) as [|Hgt]; [assumption|].
      rewrite Hko in H by lia. discriminate.
    - intros H. rewrite Hok by assumption. reflexivity. }
  split; [reflexivity|]. split; [exact Hiff|]. split; [exact Hok|]. split; [exact Hko|].
  split; [|reflexivity].
  intros size1 size2 p1 p2 ctx i v H1 H2 Hi.
  apply Hiff in H1. apply Hiff in H2.
  rewrite (Hok size1 p1 H1), (Hok size2 p2 H2). simpl.
  split; [reflexivity|]. apply list_lookup_insert_eq. exact Hi.
Qed.

Lemma MCU_API_malloc_static_buffer_witness :
  MCU_API_malloc 200 (Ptr_other 0) = (SFX_ERR_NONE, Ptr_malloc_buf 0) /\
  MCU_API_malloc 201 (Ptr_other 0) = (MCU_ERR_API_MALLOC, Ptr_other 0) /\
  load (store (mkContext (replicate 200 0) 0) (snd (MCU_API_malloc 12 (Ptr_other 0))) 3%nat 77)
       (snd (MCU_API_malloc 200 (Ptr_other 4))) 3%nat = Some 77.
Proof.
  destruct MCU_API_malloc_static_buffer as (_ & _ & Hok & Hko & Halias & _).
  split; [apply Hok; vm_compute; discriminate|].
  split; [apply Hko; reflexivity|].
  apply Halias; [reflexivity | reflexivity | vm_compute; lia].
Defined.

(** ** Transport bridge *)

Section TransportBridgeFacts.

Variable S2LP_ERROR_BASE_SPI : Z.
Variable SPI_transfer : list S2LP_HW_event -> list Z -> Z * list Z.

(** C6.  Whatever the SPI driver answers, S2LP_HW_spi_write_read_8 makes
    exactly three calls: chip select low, one SPI transfer, chip select
    high; so the line is low before the transfer and high again before the
    return on the failing path as on the successful one, and the transfer
    is attempted once only.  The status is S2LP_SUCCESS when the transfer
    succeeded and the SPI error base plus the child status otherwise. *)
Theorem S2LP_HW_spi_write_read_8_bracket (tx_data rx_data : list Z) (transfer_size : Z) :
  let transfer := SPI_write_read_8 S2LP_HW_SPI_INSTANCE tx_data transfer_size in
  let answer := SPI_transfer [GPIO_write GPIO_S2LP_CS 0; transfer] rx_data in
  let '(status, rx_data', trace) :=
    S2LP_HW_spi_write_read_8 S2LP_ERROR_BASE_SPI SPI_transfer tx_data rx_data transfer_size in
  trace = [GPIO_write GPIO_S2LP_CS 0; transfer; GPIO_write GPIO_S2LP_CS 1] /\
  head trace = Some (GPIO_write GPIO_S2LP_CS 0) /\
  last trace = Some (GPIO_write GPIO_S2LP_CS 1) /\
  length (List.filter is_spi_transfer trace) = 1%nat /\
  rx_data' = snd answer /\
  status = (if fst answer =? SPI_SUCCESS then S2LP_SUCCESS
            else S2LP_ERROR_BASE_SPI + fst answer).
Proof.
  intros transfer answer. unfold S2LP_HW_spi_write_read_8. simpl.
  fold transfer. fold answer. destruct answer as [spi_status rx'] eqn:Ha.
  unfold SPI_exit_error. simpl.
  destruct (spi_status =? SPI_SUCCESS); simpl; repeat split; reflexivity.
Qed.

End TransportBridgeFacts.

(** ** DMA engine *)

Lemma DMA1_start_channel3_flag (s : DMA_state) :
  dma1_channel3_tcif (DMA1_start_channel3 s) = 0.
Proof. reflexivity. Qed.

Lemma DMA1_stop_channel3_flag (s : DMA_state) :
  dma1_channel3_tcif (DMA1_stop_channel3 s) = 0.
Proof. reflexivity. Qed.









(** ** Watchdog-bounded wait *)

Lemma wakeup_delays_snoc (trace : list MCU_event) (e : MCU_event) :
  wakeup_delays (trace ++ [e]) =
  wakeup_delays trace ++ match e with RTC_start_wakeup_timer d => [d] | _ => [] end.
Proof. unfold wakeup_delays. rewrite omap_app. destruct e; reflexivity. Qed.

Lemma watchdog_reloads_snoc (trace : list MCU_event) (e : MCU_event) :
  watchdog_reloads (trace ++ [e]) =
  (watchdog_reloads trace + if is_reload e then 1 else 0)%nat.
Proof.
  unfold watchdog_reloads. rewrite List.filter_app, length_app. simpl.
  destruct (is_reload e); reflexivity.
Qed.

Lemma last_timer_command_snoc (trace : list MCU_event) (e : MCU_event) :
  last_timer_command (trace ++ [e]) =
  if is_timer_command e then Some e else last_timer_command trace.
Proof.
  unfold last_timer_command. rewrite List.filter_app. simpl.
  destruct (is_timer_command e).
  - apply last_snoc.
  - rewrite app_nil_r. reflexivity.
Qed.

Lemma timer_commands_ok_snoc (RTC_status : list MCU_event -> Z) (rest : list MCU_event) :
  forall history e,
    timer_commands_ok RTC_status history (rest ++ [e]) =
    timer_commands_ok RTC_status history rest &&
    (if is_timer_command e then RTC_status (history ++ rest ++ [e]) =? RTC_SUCCESS else true).
Proof.
  induction rest as [|x rest IH]; intros history e; simpl.
  - rewrite andb_true_r. reflexivity.
  - rewrite IH, <- !app_assoc. simpl. rewrite andb_assoc. reflexivity.
Qed.

Lemma min_decomposition_facts (period : Z) :
  0 < period ->
  forall subs remaining,
    min_decomposition period remaining subs ->
    Forall (fun sub => 0 < sub <= period) subs /\
    sum_list subs = remaining /\
    Z.of_nat (length subs) = ceil_div remaining period.
Proof.
  intros Hp. induction subs as [|sub subs IH]; intros remaining Hdec; simpl in Hdec.
  - subst remaining. repeat split; [constructor|].
    unfold ceil_div. simpl. symmetry. apply Z.div_small. lia.
  - destruct Hdec as (Hpos & Hsub & Hrest).
    destruct (IH _ Hrest) as (Hall & Hsum & Hlen).
    split; [constructor; [lia | exact Hall]|].
    split; [simpl; lia|].
    rewrite length_cons, Nat2Z.inj_succ, Hlen. unfold ceil_div.
    destruct (Z.le_gt_cases remaining period) as [Hle | Hgt].
    + replace sub with remaining by lia.
      replace (remaining - remaining + period - 1) with (period - 1) by lia.
      rewrite (Z.div_small (period - 1)) by lia.
      replace (remaining + period - 1) with ((remaining - 1) + 1 * period) by lia.
      rewrite Z.div_add by lia. rewrite (Z.div_small (remaining - 1)) by lia. reflexivity.
    + replace sub with period by lia.
      replace (remaining + period - 1) with ((remaining - period + period - 1) + 1 * period) by lia.
      rewrite Z.div_add by lia. lia.
Qed.

Section TimerFacts.

Variable IWDG_REFRESH_PERIOD_SECONDS : Z.
Variable RTC_status : list MCU_event -> Z.

Local Abbreviation wait_loop := (timer_wait_loop IWDG_REFRESH_PERIOD_SECONDS RTC_status).
Local Abbreviation commands_ok := (timer_commands_ok RTC_status []).

(** With a positive refresh period the loop ends: more fuel than seconds
    requested is enough. *)
Lemma timer_wait_loop_total (fuel : nat) :
  0 < IWDG_REFRESH_PERIOD_SECONDS ->
  forall remaining trace,
    (Z.to_nat remaining < fuel)%nat ->
    exists status trace', wait_loop fuel remaining trace = Some (status, trace').
Proof.
  intros Hp. induction fuel as [|fuel IH]; intros remaining trace Hfuel; [lia|].
  cbn [timer_wait_loop].
  destruct (Z.gtb_spec remaining 0) as [Hr | Hr]; [|eauto].
  destruct (negb _); [unfold timer_wait_errors; eauto|].
  destruct (negb _); [unfold timer_wait_errors; eauto|].
  apply IH. unfold u32.
  assert (Hsub : 0 < (if remaining >? IWDG_REFRESH_PERIOD_SECONDS
                      then IWDG_REFRESH_PERIOD_SECONDS else remaining) <= remaining).
  { destruct (Z.gtb_spec remaining IWDG_REFRESH_PERIOD_SECONDS); lia. }
  set (sub := if remaining >? IWDG_REFRESH_PERIOD_SECONDS
              then IWDG_REFRESH_PERIOD_SECONDS else remaining) in *.
  assert (Hmod : (remaining - sub) mod 2 ^ 32 <= remaining - sub)
    by (apply Z.mod_le; lia).
  assert (0 <= (remaining - sub) mod 2 ^ 32) by (apply Z.mod_pos_bound; lia).
  lia.
Qed.



(** A successful run: the delays handed to the wake-up timer decompose the
    remaining time, the watchdog is reloaded once per sub-interval, all
    checked calls succeeded, and past the first iteration the last timer
    command is an arming one. *)
Lemma timer_wait_loop_success (fuel : nat) :
  0 < IWDG_REFRESH_PERIOD_SECONDS ->
  forall remaining trace trace',
    0 <= remaining < 2 ^ 32 ->
    wait_loop fuel remaining trace = Some (SFX_ERR_NONE, trace') ->
    (exists subs,
       wakeup_delays trace' = wakeup_delays trace ++ subs /\
       min_decomposition IWDG_REFRESH_PERIOD_SECONDS remaining subs /\
       watchdog_reloads trace' = (watchdog_reloads trace + length subs)%nat) /\
    commands_ok trace' = commands_ok trace /\
    (if remaining >? 0
     then exists d, last_timer_command trace' = Some (RTC_start_wakeup_timer d)
     else trace' = trace).
Proof.
  intros Hp.
  induction fuel as [|fuel IH]; intros remaining trace trace' Hrange Hrun; [discriminate|].
  cbn [timer_wait_loop] in Hrun.
  destruct (Z.gtb_spec remaining 0) as [Hr | Hr].
  2:{ injection Hrun as <-. split; [|split; reflexivity].
      exists []. rewrite app_nil_r, Nat.add_0_r. repeat split. simpl. lia. }
  destruct (negb (RTC_status (trace ++ [RTC_stop_wakeup_timer]) =? RTC_SUCCESS)) eqn:Hstop;
    [discriminate|].
  destruct (negb (RTC_status ((trace ++ [RTC_stop_wakeup_timer]) ++ [RTC_start_wakeup_timer _])
                  =? RTC_SUCCESS)) eqn:Hstart; [discriminate|].
  apply negb_false_iff in Hstop, Hstart.
  set (sub := if remaining >? IWDG_REFRESH_PERIOD_SECONDS
              then IWDG_REFRESH_PERIOD_SECONDS else remaining) in *.
  assert (Hsub : sub = Z.min remaining IWDG_REFRESH_PERIOD_SECONDS).
  { unfold sub. destruct (Z.gtb_spec remaining IWDG_REFRESH_PERIOD_SECONDS); lia. }
  assert (Hu32 : u32 (remaining - sub) = remaining - sub).
  { unfold u32. apply Z.mod_small. lia. }
  rewrite Hu32 in Hrun.
  apply IH in Hrun; [|lia].
  destruct Hrun as ((subs & Hdelays & Hdec & Hreloads) & Hok & Hlast).
  rewrite !wakeup_delays_snoc, !app_nil_r in Hdelays.
  rewrite !watchdog_reloads_snoc in Hreloads. simpl in Hreloads.
  rewrite !timer_commands_ok_snoc in Hok. simpl in Hok.
  rewrite Hstop, Hstart, !andb_true_r in Hok.
  split; [|split].
  - exists (sub :: subs). rewrite Hdelays, <- app_assoc. split; [reflexivity|].
    split; [simpl; auto|]. rewrite Hreloads. simpl. lia.
  - exact Hok.
  - destruct (remaining - sub >? 0); [exact Hlast|].
    rewrite Hlast, !last_timer_command_snoc. simpl. eauto.
Qed.

(** When the RTC driver never fails, the run is a successful one. *)
Lemma timer_wait_loop_no_failure (fuel : nat) :
  (forall history, RTC_status history = RTC_SUCCESS) ->
  forall remaining trace status trace',
    wait_loop fuel remaining trace = Some (status, trace') -> status = SFX_ERR_NONE.
Proof.
  intros Hrtc. induction fuel as [|fuel IH]; intros remaining trace status trace' Hrun;
    [discriminate|].
  cbn [timer_wait_loop] in Hrun. rewrite !Hrtc in Hrun. simpl in Hrun.
  destruct (remaining >? 0); [eapply IH; exact Hrun|].
  injection Hrun as <- <-. reflexivity.
Qed.

End TimerFacts.




(** C3.  For a duration D (an [sfx_u32]) stored by MCU_API_timer_start
    and a positive refresh period P, the wait returns, and with an RTC
    driver that does not fail it returns success.  On a successful return
    the delays given to RTC_start_wakeup_timer are, in order, the
    sub-intervals [min remaining P]; each is positive and at most P, they
    add up to D, there are ceil(D / P) of them, and the watchdog has been
    reloaded ceil(D / P) + 1 times, hence at least ceil(D / P) times. *)
Theorem MCU_API_timer_wait_for_end_decomposition
    (IWDG_REFRESH_PERIOD_SECONDS : Z) (RTC_status : list MCU_event -> Z)
    (duration : Z) (ctx : MCU_API_context_t) (fuel : nat) :
  0 < IWDG_REFRESH_PERIOD_SECONDS ->
  0 <= duration < 2 ^ 32 ->
  (Z.to_nat duration < fuel)%nat ->
  exists status trace,
    MCU_API_timer_wait_for_end IWDG_REFRESH_PERIOD_SECONDS RTC_status fuel
      (snd (MCU_API_timer_start duration ctx)) = Some (status, trace) /\
    ((forall history, RTC_status history = RTC_SUCCESS) -> status = SFX_ERR_NONE) /\
    (status = SFX_ERR_NONE ->
     min_decomposition IWDG_REFRESH_PERIOD_SECONDS duration (wakeup_delays trace) /\
     Forall (fun sub => 0 < sub <= IWDG_REFRESH_PERIOD_SECONDS) (wakeup_delays trace) /\
     sum_list (wakeup_delays trace) = duration /\
     Z.of_nat (length (wakeup_delays trace)) = ceil_div duration IWDG_REFRESH_PERIOD_SECONDS /\
     Z.of_nat (watchdog_reloads trace) = ceil_div duration IWDG_REFRESH_PERIOD_SECONDS + 1 /\
     ceil_div duration IWDG_REFRESH_PERIOD_SECONDS <= Z.of_nat (watchdog_reloads trace)).
Proof.
  intros Hp Hd Hfuel. unfold MCU_API_timer_wait_for_end. simpl.
  destruct (timer_wait_loop_total IWDG_REFRESH_PERIOD_SECONDS RTC_status fuel Hp
              duration [IWDG_reload] Hfuel) as (status & trace & Hrun).
  exists status, trace. split; [exact Hrun|]. split.
  - intros Hrtc. eapply timer_wait_loop_no_failure; [exact Hrtc | exact Hrun].
  - intros ->.
    destruct (timer_wait_loop_success _ _ _ Hp _ _ _ Hd Hrun)
      as ((subs & Hdelays & Hdec & Hreloads) & _ & _).
    simpl in Hdelays, Hreloads. rewrite Hdelays.
    destruct (min_decomposition_facts _ Hp _ _ Hdec) as (Hall & Hsum & Hlen).
    repeat split; try assumption; try (apply Forall_forall, Hall); lia.
Qed.

Lemma MCU_API_timer_wait_for_end_decomposition_witness :
  exists status trace,
    MCU_API_timer_wait_for_end 10 (fun _ => RTC_SUCCESS) 26%nat
      (snd (MCU_API_timer_start 25 (mkContext (replicate 200 0) 0))) = Some (status, trace) /\
    ((forall history : list MCU_event, RTC_SUCCESS = RTC_SUCCESS) -> status = SFX_ERR_NONE) /\
    (status = SFX_ERR_NONE ->
     min_decomposition 10 25 (wakeup_delays trace) /\
     Forall (fun sub => 0 < sub <= 10) (wakeup_delays trace) /\
     sum_list (wakeup_delays trace) = 25 /\
     Z.of_nat (length (wakeup_delays trace)) = ceil_div 25 10 /\
     Z.of_nat (watchdog_reloads trace) = ceil_div 25 10 + 1 /\
     ceil_div 25 10 <= Z.of_nat (watchdog_reloads trace)).
Proof.
  apply (MCU_API_timer_wait_for_end_decomposition 10 (fun _ => RTC_SUCCESS) 25
           (mkContext (replicate 200 0) 0) 26%nat); [lia | lia | vm_compute; lia].
Defined.

(** ** Sequence-state record *)

Lemma NVM_read_byte_in_range (nvm : NVM_t) (address data : Z) :
  address < NVM_SPACE_SIZE nvm ->
  NVM_read_byte nvm address data = (NVM_SUCCESS, byte_at (eeprom nvm) (Z.to_nat address)).
Proof.
  intros H. unfold NVM_read_byte.
  destruct (Z.leb_spec (NVM_SPACE_SIZE nvm) address); [lia | reflexivity].
Qed.

Lemma NVM_read_byte_out_of_range (nvm : NVM_t) (address data : Z) :
  NVM_SPACE_SIZE nvm <= address ->
  NVM_read_byte nvm address data = (NVM_ERROR_ADDRESS, data).
Proof.
  intros H. unfold NVM_read_byte.
  destruct (Z.leb_spec (NVM_SPACE_SIZE nvm) address); [reflexivity | lia].
Qed.

Lemma NVM_write_byte_ok (store : list Z) (address data : Z) :
  address < Z.of_nat (length store) ->
  NVM_write_byte (mkNVM store false false) address data =
  (NVM_SUCCESS, mkNVM (<[Z.to_nat address := data]> store) false false).
Proof.
  intros H. unfold NVM_write_byte, NVM_SPACE_SIZE. simpl.
  destruct (Z.leb_spec (Z.of_nat (length store)) address); [lia | reflexivity].
Qed.

Lemma byte_at_insert_eq (l : list Z) (i : nat) (v : Z) :
  (i < length l)%nat -> byte_at (<[i := v]> l) i = v.
Proof. intros H. unfold byte_at. rewrite list_lookup_insert_eq by exact H. reflexivity. Qed.

Lemma byte_at_insert_ne (l : list Z) (i j : nat) (v : Z) :
  i <> j -> byte_at (<[i := v]> l) j = byte_at l j.
Proof. intros H. unfold byte_at. rewrite list_lookup_insert_ne by exact H. reflexivity. Qed.

(** The record read by MCU_API_get_nv_mem from a space that holds the
    seven addresses 20..26. *)
Lemma MCU_API_get_nv_mem_success (nvm : NVM_t) (read_data : list Z) :
  NVM_ADDRESS_LAST <= NVM_SPACE_SIZE nvm ->
  MCU_API_get_nv_mem nvm read_data =
  (SFX_ERR_NONE,
   <[6%nat := byte_at (eeprom nvm) 26]> (<[5%nat := byte_at (eeprom nvm) 25]>
   (<[4%nat := byte_at (eeprom nvm) 24]> (<[3%nat := byte_at (eeprom nvm) 23]>
   (<[2%nat := byte_at (eeprom nvm) 22]> (<[1%nat := byte_at (eeprom nvm) 21]>
   (<[0%nat := byte_at (eeprom nvm) 20]> read_data))))))).
Proof.
  intros Hsize. unfold NVM_ADDRESS_LAST in Hsize.
  unfold MCU_API_get_nv_mem, NVM_read_byte_into.
  rewrite !NVM_read_byte_in_range
    by (unfold NVM_ADDRESS_SIGFOX_PN, NVM_ADDRESS_SIGFOX_MESSAGE_COUNTER,
          NVM_ADDRESS_SIGFOX_FH, NVM_ADDRESS_SIGFOX_RL; lia).
  reflexivity.
Qed.

(** The space left by MCU_API_set_nv_mem when the flash interface
    works. *)
Lemma MCU_API_set_nv_mem_success (store data_to_write : list Z) :
  NVM_ADDRESS_LAST <= Z.of_nat (length store) ->
  MCU_API_set_nv_mem (mkNVM store false false) data_to_write =
  (SFX_ERR_NONE,
   mkNVM
     (<[26%nat := byte_at data_to_write 6]> (<[25%nat := byte_at data_to_write 5]>
     (<[24%nat := byte_at data_to_write 4]> (<[23%nat := byte_at data_to_write 3]>
     (<[22%nat := byte_at data_to_write 2]> (<[21%nat := byte_at data_to_write 1]>
     (<[20%nat := byte_at data_to_write 0]> store)))))))
     false false).
Proof.
  intros Hsize. unfold NVM_ADDRESS_LAST in Hsize.
  unfold MCU_API_set_nv_mem.
  repeat (rewrite NVM_write_byte_ok
            by (rewrite ?length_insert;
                unfold NVM_ADDRESS_SIGFOX_PN, NVM_ADDRESS_SIGFOX_MESSAGE_COUNTER,
                  NVM_ADDRESS_SIGFOX_FH, NVM_ADDRESS_SIGFOX_RL; lia);
          cbv beta iota;
          change (negb (NVM_SUCCESS =? NVM_SUCCESS)) with false; cbv beta iota).
  reflexivity.
Qed.

Ltac insert_lookups :=
  repeat first
    [ rewrite byte_at_insert_ne by lia
    | rewrite byte_at_insert_eq by (rewrite ?length_insert; lia) ].

(** C4 (as the code has it).  The record is seven bytes: PN (2 bytes) at
    NVM_ADDRESS_SIGFOX_PN, the message counter (2 bytes) at
    NVM_ADDRESS_SIGFOX_MESSAGE_COUNTER, FH (2 bytes) at
    NVM_ADDRESS_SIGFOX_FH and RL (1 byte) at NVM_ADDRESS_SIGFOX_RL, held at
    offsets 0, 2, 4 and 6 of the record buffer.  On a space that contains
    these addresses MCU_API_get_nv_mem succeeds and copies each field in
    full into the buffer, leaving the rest of the buffer as it was; when
    the flash interface works MCU_API_set_nv_mem succeeds and copies each
    field in full into the space, leaving every other address (device id,
    device key, whatever follows RL) as it was. *)
Theorem MCU_API_nv_mem_record_layout (nvm : NVM_t) (buffer : list Z) :
  NVM_ADDRESS_LAST <= NVM_SPACE_SIZE nvm ->
  (SFX_NVMEM_BLOCK_SIZE <= length buffer)%nat ->
  (exists read_data,
     MCU_API_get_nv_mem nvm buffer = (SFX_ERR_NONE, read_data) /\
     length read_data = length buffer /\
     slice read_data SFX_NVMEM_PN 2 = slice (eeprom nvm) (Z.to_nat NVM_ADDRESS_SIGFOX_PN) 2 /\
     slice read_data SFX_NVMEM_MSG_COUNTER 2
       = slice (eeprom nvm) (Z.to_nat NVM_ADDRESS_SIGFOX_MESSAGE_COUNTER) 2 /\
     slice read_data SFX_NVMEM_FH 2 = slice (eeprom nvm) (Z.to_nat NVM_ADDRESS_SIGFOX_FH) 2 /\
     slice read_data SFX_NVMEM_RL 1 = slice (eeprom nvm) (Z.to_nat NVM_ADDRESS_SIGFOX_RL) 1 /\
     (forall i, (SFX_NVMEM_BLOCK_SIZE <= i)%nat -> read_data !! i = buffer !! i)) /\
  (unlock_fault nvm = false -> lock_fault nvm = false ->
   exists nvm',
     MCU_API_set_nv_mem nvm buffer = (SFX_ERR_NONE, nvm') /\
     length (eeprom nvm') = length (eeprom nvm) /\
     slice (eeprom nvm') (Z.to_nat NVM_ADDRESS_SIGFOX_PN) 2 = slice buffer SFX_NVMEM_PN 2 /\
     slice (eeprom nvm') (Z.to_nat NVM_ADDRESS_SIGFOX_MESSAGE_COUNTER) 2
       = slice buffer SFX_NVMEM_MSG_COUNTER 2 /\
     slice (eeprom nvm') (Z.to_nat NVM_ADDRESS_SIGFOX_FH) 2 = slice buffer SFX_NVMEM_FH 2 /\
     slice (eeprom nvm') (Z.to_nat NVM_ADDRESS_SIGFOX_RL) 1 = slice buffer SFX_NVMEM_RL 1 /\
     (forall a, (a < Z.to_nat NVM_ADDRESS_SIGFOX_PN \/ Z.to_nat NVM_ADDRESS_LAST <= a)%nat ->
                eeprom nvm' !! a = eeprom nvm !! a)).
Proof.
  intros Hsize Hlen. split.
  - rewrite MCU_API_get_nv_mem_success by exact Hsize.
    eexists; split; [reflexivity|].
    unfold SFX_NVMEM_BLOCK_SIZE in *.
    split; [rewrite !length_insert; reflexivity|].
    unfold slice. simpl.
    repeat split; try (insert_lookups; reflexivity).
    intros i Hi. rewrite !list_lookup_insert_ne by lia. reflexivity.
  - intros Hu Hl. destruct nvm as [store u l]. simpl in Hu, Hl. subst u l.
    unfold NVM_SPACE_SIZE in Hsize. simpl in Hsize.
    rewrite MCU_API_set_nv_mem_success by exact Hsize.
    eexists; split; [reflexivity|]. unfold NVM_ADDRESS_LAST in *. simpl eeprom.
    split; [rewrite !length_insert; reflexivity|].
    unfold slice. simpl.
    repeat split; try (insert_lookups; reflexivity).
    intros a Ha. change (Z.to_nat NVM_ADDRESS_SIGFOX_PN) with 20%nat in Ha.
    change (Z.to_nat 27) with 27%nat in Ha.
    rewrite !list_lookup_insert_ne by lia. reflexivity.
Qed.

Lemma MCU_API_nv_mem_record_layout_witness :
  (exists read_data,
     MCU_API_get_nv_mem (mkNVM (map Z.of_nat (seq 100 32)) false false) [1; 2; 3; 4; 5; 6; 7]
       = (SFX_ERR_NONE, read_data) /\
     slice read_data SFX_NVMEM_RL 1 = [126]) /\
  (exists nvm',
     MCU_API_set_nv_mem (mkNVM (map Z.of_nat (seq 100 32)) false false) [1; 2; 3; 4; 5; 6; 7]
       = (SFX_ERR_NONE, nvm') /\
     slice (eeprom nvm') (Z.to_nat NVM_ADDRESS_SIGFOX_RL) 1 = [7]).
Proof.
  destruct (MCU_API_nv_mem_record_layout
              (mkNVM (map Z.of_nat (seq 100 32)) false false) [1; 2; 3; 4; 5; 6; 7])
    as [Hget Hset]; [vm_compute; discriminate | vm_compute; lia |].
  split.
  - destruct Hget as (read_data & Hrun & _ & _ & _ & _ & Hrl & _).
    exists read_data. split; [exact Hrun|]. rewrite Hrl. reflexivity.
  - destruct (Hset eq_refl eq_refl) as (nvm' & Hrun & _ & _ & _ & _ & Hrl & _).
    exists nvm'. split; [exact Hrun|]. rewrite Hrl. reflexivity.
Defined.

(** C4 (as stated) fails for RL: the field is one byte, not two.  With
    address [a] of the space holding [100 + a] and an eight-byte buffer,
    reading fills offsets 0..6 and leaves offset 7 at its old value 8
    although address 27 holds 127; writing stores offsets 0..6 at addresses
    20..26 and leaves address 27 at 127 although offset 7 holds 8. *)
Lemma MCU_API_nv_mem_RL_is_one_byte :
  MCU_API_get_nv_mem (mkNVM (map Z.of_nat (seq 100 32)) false false) [1; 2; 3; 4; 5; 6; 7; 8]
    = (SFX_ERR_NONE, [120; 121; 122; 123; 124; 125; 126; 8]) /\
  slice (map Z.of_nat (seq 100 32)) (Z.to_nat NVM_ADDRESS_SIGFOX_RL) 2 = [126; 127] /\
  fst (MCU_API_set_nv_mem (mkNVM (map Z.of_nat (seq 100 32)) false false)
         [1; 2; 3; 4; 5; 6; 7; 8]) = SFX_ERR_NONE /\
  slice (eeprom (snd (MCU_API_set_nv_mem (mkNVM (map Z.of_nat (seq 100 32)) false false)
                        [1; 2; 3; 4; 5; 6; 7; 8])))
        (Z.to_nat NVM_ADDRESS_SIGFOX_PN) 8
    = [1; 2; 3; 4; 5; 6; 7; 127].
Proof. vm_compute. repeat split; reflexivity. Qed.

(** ** Byte copies *)

Lemma copy_bytes_length (count : nat) :
  forall byte_idx dst dst_off src src_off,
    length (copy_bytes count byte_idx dst dst_off src src_off) = length dst.
Proof.
  induction count as [|count IH]; intros; simpl; [reflexivity|].
  rewrite IH, length_insert. reflexivity.
Qed.

Lemma copy_bytes_lookup (count : nat) :
  forall byte_idx dst dst_off src src_off (j : nat),
    copy_bytes count byte_idx dst dst_off src src_off !! j =
    if decide (dst_off + byte_idx <= j < dst_off + byte_idx + count /\ j < length dst)%nat
    then Some (byte_at src (src_off + (j - dst_off)))
    else dst !! j.
Proof.
  induction count as [|count IH]; intros byte_idx dst dst_off src src_off j; simpl.
  - case_decide; [lia | reflexivity].
  - rewrite IH, length_insert.
    destruct (decide (j = dst_off + byte_idx)%nat) as [-> | Hne].
    + rewrite decide_False by lia.
      destruct (decide (dst_off + byte_idx < length dst)%nat) as [Hlt | Hge].
      * rewrite list_lookup_insert_eq by exact Hlt.
        rewrite decide_True by lia. do 2 f_equal. lia.
      * rewrite list_insert_ge by lia. rewrite decide_False by lia. reflexivity.
    + rewrite list_lookup_insert_ne by lia.
      repeat case_decide; try lia; reflexivity.
Qed.

Lemma slice_length (l : list Z) (off n : nat) : length (slice l off n) = n.
Proof. unfold slice. rewrite length_map, length_seq. reflexivity. Qed.

Lemma slice_lookup (l : list Z) (off n j : nat) :
  slice l off n !! j = if decide (j < n)%nat then Some (byte_at l (off + j)) else None.
Proof.
  unfold slice. rewrite list_lookup_fmap.
  case_decide as Hj.
  - rewrite lookup_seq_lt by exact Hj. reflexivity.
  - rewrite lookup_seq_ge by lia. reflexivity.
Qed.

(** Filling a whole array is taking a slice of the source. *)
Lemma copy_bytes_whole (dst src : list Z) (src_off : nat) :
  copy_bytes (length dst) 0 dst 0 src src_off = slice src src_off (length dst).
Proof.
  apply list_eq. intros j. rewrite copy_bytes_lookup, slice_lookup.
  repeat case_decide; try lia.
  - do 2 f_equal. lia.
  - apply lookup_ge_None_2. lia.
Qed.

Lemma copy_block (dst src : list Z) (src_off : nat) :
  length dst = AES_BLOCK_SIZE ->
  copy_bytes AES_BLOCK_SIZE 0 dst 0 src src_off = slice src src_off AES_BLOCK_SIZE.
Proof. intros <-. apply copy_bytes_whole. Qed.

(** A slice looks at the bytes of its window only. *)
Lemma slice_ext (l1 l2 : list Z) (off n : nat) :
  (forall j, (off <= j < off + n)%nat -> l1 !! j = l2 !! j) ->
  slice l1 off n = slice l2 off n.
Proof.
  intros H. apply list_eq. intros j. rewrite !slice_lookup.
  case_decide; [|reflexivity]. unfold byte_at. rewrite H by lia. reflexivity.
Qed.

(** ** AES-128 CBC *)

Lemma ciphertext_of_cons (c : AES_call) (chain : list AES_call) :
  ciphertext_of (c :: chain) =
  (if call_succeeded c then slice (aes_data_out c) 0 AES_BLOCK_SIZE else []) ++
  ciphertext_of chain.
Proof.
  unfold ciphertext_of. rewrite filter_cons.
  destruct (call_succeeded c) eqn:Hc.
  - rewrite decide_True by reflexivity. reflexivity.
  - rewrite decide_False by discriminate. reflexivity.
Qed.

Lemma successes_cons (c : AES_call) (chain : list AES_call) :
  successes (c :: chain) = ((if call_succeeded c then 1 else 0) + successes chain)%nat.
Proof.
  unfold successes. rewrite filter_cons.
  destruct (call_succeeded c) eqn:Hc.
  - rewrite decide_True by reflexivity. reflexivity.
  - rewrite decide_False by discriminate. reflexivity.
Qed.

Lemma ciphertext_of_length (chain : list AES_call) :
  length (ciphertext_of chain) = (AES_BLOCK_SIZE * successes chain)%nat.
Proof.
  induction chain as [|c chain IH]; [reflexivity|].
  rewrite ciphertext_of_cons, successes_cons, length_app, IH.
  destruct (call_succeeded c); [rewrite slice_length|]; simpl; lia.
Qed.

Lemma store_ciphertext_length (chain : list AES_call) :
  forall block_idx encrypted_data,
    length (store_ciphertext block_idx chain encrypted_data) = length encrypted_data.
Proof.
  induction chain as [|c chain IH]; intros block_idx encrypted_data;
    cbn [store_ciphertext]; [reflexivity|].
  destruct (call_succeeded c); [|reflexivity].
  rewrite IH, copy_bytes_length. reflexivity.
Qed.

(** Where the loop has written, the buffer holds the ciphertext; everywhere
    else it holds what it held before.  The statement is about a chain in
    which only the last invocation may have failed. *)
Lemma store_ciphertext_lookup (chain : list AES_call) :
  forall block_idx encrypted_data (j : nat),
    forallb call_succeeded (removelast chain) = true ->
    store_ciphertext block_idx chain encrypted_data !! j =
    if decide (block_idx * AES_BLOCK_SIZE <= j
               < block_idx * AES_BLOCK_SIZE + AES_BLOCK_SIZE * successes chain
               /\ j < length encrypted_data)%nat
    then ciphertext_of chain !! (j - block_idx * AES_BLOCK_SIZE)%nat
    else encrypted_data !! j.
Proof.
  induction chain as [|c chain IH]; intros block_idx encrypted_data j Hinit.
  - simpl. unfold successes. simpl. case_decide; [lia | reflexivity].
  - cbn [store_ciphertext]. rewrite ciphertext_of_cons, successes_cons.
    destruct (call_succeeded c) eqn:Hc.
    + assert (Hrest : forallb call_succeeded (removelast chain) = true).
      { destruct chain as [|c' chain']; [reflexivity|].
        cbn [removelast] in Hinit. simpl in Hinit. rewrite Hc in Hinit. exact Hinit. }
      rewrite IH by exact Hrest. rewrite copy_bytes_length, copy_bytes_lookup.
      unfold AES_BLOCK_SIZE in *.
      repeat case_decide; try lia.
      * rewrite lookup_app_r by (rewrite slice_length; lia).
        rewrite slice_length. f_equal. lia.
      * rewrite lookup_app_l by (rewrite slice_length; lia).
        rewrite slice_lookup. rewrite decide_True by lia. do 2 f_equal.
      * reflexivity.
    + destruct chain as [|c' chain'].
      * unfold successes. simpl. case_decide; [lia | reflexivity].
      * cbn [removelast] in Hinit. simpl in Hinit. rewrite Hc in Hinit. discriminate.
Qed.

Lemma forallb_successes (chain : list AES_call) :
  forallb call_succeeded chain = true -> successes chain = length chain.
Proof.
  induction chain as [|c chain IH]; intros H; [reflexivity|].
  simpl in H. apply andb_true_iff in H as [Hc Hrest].
  rewrite successes_cons, Hc, IH by exact Hrest. reflexivity.
Qed.

Lemma successes_le_length (chain : list AES_call) :
  (successes chain <= length chain)%nat.
Proof.
  induction chain as [|c chain IH]; [unfold successes; simpl; lia|].
  rewrite successes_cons. destruct (call_succeeded c); simpl; lia.
Qed.

(** The bytes the [k]-th invocation contributes to the ciphertext. *)
Lemma ciphertext_of_block (chain : list AES_call) :
  forall (k : nat) c,
    chain !! k = Some c ->
    forallb call_succeeded (take (S k) chain) = true ->
    slice (ciphertext_of chain) (k * AES_BLOCK_SIZE) AES_BLOCK_SIZE =
    slice (aes_data_out c) 0 AES_BLOCK_SIZE.
Proof.
  induction chain as [|c0 chain IH]; intros k c Hk Hok; [discriminate|].
  simpl in Hok. apply andb_true_iff in Hok as [Hc0 Hok].
  rewrite ciphertext_of_cons, Hc0.
  destruct k as [|k].
  - injection Hk as ->. apply list_eq. intros j. rewrite !slice_lookup.
    case_decide as Hj; [|reflexivity]. f_equal. unfold byte_at.
    rewrite lookup_app_l by (rewrite slice_length; exact Hj).
    rewrite slice_lookup, decide_True by exact Hj. reflexivity.
  - simpl in Hk. rewrite <- (IH k c Hk Hok).
    apply list_eq. intros j. rewrite !slice_lookup.
    case_decide as Hj; reflexivity.
Qed.

Section CipherFacts.

Variable AES_encrypt : list Z -> list Z -> list Z -> list Z -> Z * list Z.

Local Abbreviation chain_of := (cbc_chain AES_encrypt).

Lemma cbc_chain_prefix_succeeds (local_key : list Z) (blocks : list (list Z)) :
  forall prev, forallb call_succeeded (removelast (chain_of local_key prev blocks)) = true.
Proof.
  induction blocks as [|plain rest IH]; intros prev; [reflexivity|].
  cbn [cbc_chain]. destruct (AES_encrypt _ _ _ _) as [status cipher] eqn:Hcall.
  destruct (status =? AES_SUCCESS) eqn:Hs; [|reflexivity].
  specialize (IH cipher).
  destruct (chain_of local_key cipher rest) as [|c' chain']; [reflexivity|].
  assert (Hrl : forall (a b : AES_call) l, removelast (a :: b :: l) = a :: removelast (b :: l))
    by reflexivity.
  rewrite Hrl. cbn [forallb]. rewrite IH.
  unfold call_succeeded. cbn [aes_status]. rewrite Hs. reflexivity.
Qed.

Lemma cbc_chain_length (local_key : list Z) (blocks : list (list Z)) :
  forall prev,
    (length (chain_of local_key prev blocks) <= length blocks)%nat /\
    (forallb call_succeeded (chain_of local_key prev blocks) = true ->
     length (chain_of local_key prev blocks) = length blocks).
Proof.
  induction blocks as [|plain rest IH]; intros prev; [split; reflexivity|].
  cbn [cbc_chain]. destruct (AES_encrypt _ _ _ _) as [status cipher] eqn:Hcall.
  destruct (status =? AES_SUCCESS) eqn:Hs.
  - destruct (IH cipher) as [Hle Heq]. split; [simpl; lia|].
    intros Hall. simpl in Hall. apply andb_true_iff in Hall as [_ Hall].
    simpl. rewrite Heq by exact Hall. reflexivity.
  - split; [simpl; lia|]. intros Hall. simpl in Hall.
    unfold call_succeeded in Hall. simpl in Hall. rewrite Hs in Hall. discriminate.
Qed.

(** What the chain says about each invocation: its plaintext block, its
    key, the result of the core on them, and its vector, the previous
    ciphertext. *)
Lemma cbc_chain_lookup (local_key : list Z) (blocks : list (list Z)) :
  forall prev (k : nat) c,
    chain_of local_key prev blocks !! k = Some c ->
    blocks !! k = Some (aes_data_in c) /\
    aes_key c = local_key /\
    aes_init_vector c =
      slice (match k with
             | O => prev
             | S k' => default [] (aes_data_out <$> chain_of local_key prev blocks !! k')
             end) 0 AES_BLOCK_SIZE /\
    forallb call_succeeded (take k (chain_of local_key prev blocks)) = true.
Proof.
  induction blocks as [|plain rest IH]; intros prev k c Hk; [discriminate|].
  cbn [cbc_chain] in *. destruct (AES_encrypt _ _ _ _) as [status cipher] eqn:Hcall.
  destruct k as [|k].
  - injection Hk as <-. repeat split; reflexivity.
  - simpl in Hk. destruct (status =? AES_SUCCESS) eqn:Hs; [|discriminate].
    destruct (IH cipher k c Hk) as (Hin & Hkey & Hiv & Hok).
    split; [exact Hin|]. split; [exact Hkey|]. split.
    + rewrite Hiv. destruct k as [|k]; reflexivity.
    + simpl. unfold call_succeeded at 1. simpl. rewrite Hs. exact Hok.
Qed.

(** The block loop computes the chain, threading [data_out] as the
    previous ciphertext. *)
Lemma encrypt_blocks_chain (count : nat) :
  forall block_idx local_key data_in data_out init_vector encrypted_data data_to_encrypt calls,
    length data_in = AES_BLOCK_SIZE ->
    length init_vector = AES_BLOCK_SIZE ->
    encrypt_blocks AES_encrypt count block_idx local_key data_in data_out init_vector
      encrypted_data data_to_encrypt calls =
    (chain_status
       (chain_of local_key data_out
          (map (fun i => slice data_to_encrypt (i * AES_BLOCK_SIZE) AES_BLOCK_SIZE)
               (seq block_idx count))),
     store_ciphertext block_idx
       (chain_of local_key data_out
          (map (fun i => slice data_to_encrypt (i * AES_BLOCK_SIZE) AES_BLOCK_SIZE)
               (seq block_idx count)))
       encrypted_data,
     calls ++
       chain_of local_key data_out
         (map (fun i => slice data_to_encrypt (i * AES_BLOCK_SIZE) AES_BLOCK_SIZE)
              (seq block_idx count))).
Proof.
  induction count as [|count IH];
    intros block_idx local_key data_in data_out init_vector encrypted_data data_to_encrypt
      calls Hin Hiv.
  - simpl. rewrite app_nil_r. reflexivity.
  - cbn [encrypt_blocks seq map cbc_chain].
    rewrite (copy_block data_in) by exact Hin.
    rewrite (copy_block init_vector) by exact Hiv.
    destruct (AES_encrypt _ _ _ _) as [status cipher] eqn:Hcall.
    destruct (status =? AES_SUCCESS) eqn:Hs; cbn [negb].
    + rewrite IH by apply slice_length.
      unfold chain_status. cbn [forallb store_ciphertext].
      unfold call_succeeded. cbn [aes_status aes_data_out]. rewrite Hs.
      cbn [andb]. rewrite <- app_assoc. reflexivity.
    + unfold chain_status. cbn [forallb store_ciphertext].
      unfold call_succeeded. cbn [aes_status]. rewrite Hs. reflexivity.
Qed.

Lemma read_device_key_in_range (count : nat) :
  forall byte_idx nvm local_key key_byte,
    Z.of_nat (Z.to_nat NVM_ADDRESS_SIGFOX_DEVICE_KEY + byte_idx + count) <= NVM_SPACE_SIZE nvm ->
    read_device_key count byte_idx nvm local_key key_byte =
    Some (copy_bytes count byte_idx local_key 0 (eeprom nvm)
            (Z.to_nat NVM_ADDRESS_SIGFOX_DEVICE_KEY)).
Proof.
  induction count as [|count IH]; intros byte_idx nvm local_key key_byte Hsize;
    [reflexivity|].
  cbn [read_device_key copy_bytes].
  unfold NVM_ADDRESS_SIGFOX_DEVICE_KEY in *.
  rewrite NVM_read_byte_in_range by lia.
  change (negb (NVM_SUCCESS =? NVM_SUCCESS)) with false. cbv iota.
  rewrite IH by lia.
  replace (Z.to_nat (4 + Z.of_nat byte_idx)) with (Z.to_nat 4 + byte_idx)%nat by lia.
  reflexivity.
Qed.

Lemma read_device_key_out_of_range (count : nat) :
  forall byte_idx nvm local_key key_byte,
    (0 < count)%nat ->
    NVM_SPACE_SIZE nvm < Z.of_nat (Z.to_nat NVM_ADDRESS_SIGFOX_DEVICE_KEY + byte_idx + count) ->
    read_device_key count byte_idx nvm local_key key_byte = None.
Proof.
  induction count as [|count IH]; intros byte_idx nvm local_key key_byte Hpos Hsize; [lia|].
  cbn [read_device_key]. unfold NVM_ADDRESS_SIGFOX_DEVICE_KEY in *.
  destruct (Z.le_gt_cases (NVM_SPACE_SIZE nvm) (4 + Z.of_nat byte_idx)) as [Hout | Hin].
  - rewrite NVM_read_byte_out_of_range by exact Hout. reflexivity.
  - rewrite NVM_read_byte_in_range by lia.
    change (negb (NVM_SUCCESS =? NVM_SUCCESS)) with false. cbv iota.
    apply IH; lia.
Qed.

(** The key the switch selects. *)
Lemma select_key_cases (nvm : NVM_t) (key : list Z) (use_key : sfx_credentials_use_key_t) :
  select_key nvm key use_key =
  match use_key with
  | CREDENTIALS_PRIVATE_KEY =>
      if NVM_ADDRESS_SIGFOX_DEVICE_KEY + Z.of_nat AES_BLOCK_SIZE <=? NVM_SPACE_SIZE nvm
      then Some (slice (eeprom nvm) (Z.to_nat NVM_ADDRESS_SIGFOX_DEVICE_KEY) AES_BLOCK_SIZE)
      else None
  | CREDENTIALS_KEY_IN_ARGUMENT => Some (slice key 0 AES_BLOCK_SIZE)
  | CREDENTIALS_other _ => None
  end.
Proof.
  unfold select_key. destruct use_key as [| |value]; [| |reflexivity].
  - destruct (Z.leb_spec (NVM_ADDRESS_SIGFOX_DEVICE_KEY + Z.of_nat AES_BLOCK_SIZE)
                (NVM_SPACE_SIZE nvm)) as [Hin | Hout].
    + rewrite read_device_key_in_range
        by (unfold NVM_ADDRESS_SIGFOX_DEVICE_KEY, AES_BLOCK_SIZE in *; lia).
      rewrite copy_block by apply length_replicate. reflexivity.
    + apply read_device_key_out_of_range;
        unfold NVM_ADDRESS_SIGFOX_DEVICE_KEY, AES_BLOCK_SIZE in *; lia.
  - rewrite copy_block by apply length_replicate. reflexivity.
Qed.

(** The function as a whole: key selection, then the chain over the
    [aes_block_len / 16] complete blocks, from the all-zero vector. *)
Lemma MCU_API_aes_128_cbc_encrypt_chain (nvm : NVM_t) (encrypted_data data_to_encrypt : list Z)
    (aes_block_len : Z) (key : list Z) (use_key : sfx_credentials_use_key_t) :
  MCU_API_aes_128_cbc_encrypt AES_encrypt nvm encrypted_data data_to_encrypt aes_block_len
    key use_key =
  match select_key nvm key use_key with
  | None => (MCU_ERR_API_AES, encrypted_data, [])
  | Some local_key =>
      let chain :=
        chain_of local_key (replicate AES_BLOCK_SIZE 0)
          (blocks_of data_to_encrypt (Z.to_nat (aes_block_len / Z.of_nat AES_BLOCK_SIZE))) in
      (chain_status chain, store_ciphertext 0 chain encrypted_data, chain)
  end.
Proof.
  unfold MCU_API_aes_128_cbc_encrypt.
  destruct (select_key nvm key use_key) as [local_key|]; [|reflexivity].
  rewrite encrypt_blocks_chain by apply length_replicate. reflexivity.
Qed.

End CipherFacts.

Lemma take_successes (chain : list AES_call) :
  forall m : nat,
    (m <= length chain)%nat ->
    forallb call_succeeded (take m chain) = true ->
    (m <= successes chain)%nat.
Proof.
  induction chain as [|c chain IH]; intros m Hm Hok; [simpl in Hm; lia|].
  destruct m as [|m]; [lia|].
  simpl in Hm, Hok. apply andb_true_iff in Hok as [Hc Hok].
  rewrite successes_cons, Hc. specialize (IH m ltac:(lia) Hok). lia.
Qed.

(** The block written for a successful invocation. *)
Lemma store_ciphertext_block (chain : list AES_call) (encrypted_data : list Z) (k : nat)
    (c : AES_call) :
  chain !! k = Some c ->
  forallb call_succeeded (removelast chain) = true ->
  forallb call_succeeded (take (S k) chain) = true ->
  (S k * AES_BLOCK_SIZE <= length encrypted_data)%nat ->
  slice (store_ciphertext 0 chain encrypted_data) (k * AES_BLOCK_SIZE) AES_BLOCK_SIZE =
  slice (aes_data_out c) 0 AES_BLOCK_SIZE.
Proof.
  intros Hk Hinit Hok Hlen.
  rewrite <- (ciphertext_of_block chain k c Hk Hok).
  apply slice_ext. intros j Hj.
  rewrite store_ciphertext_lookup by exact Hinit.
  assert (S k <= successes chain)%nat.
  { apply take_successes; [|exact Hok]. apply lookup_lt_Some in Hk. lia. }
  unfold AES_BLOCK_SIZE in *.
  rewrite decide_True by lia. f_equal. lia.
Qed.

Lemma store_ciphertext_take (chain : list AES_call) (encrypted_data : list Z) :
  forallb call_succeeded chain = true ->
  (AES_BLOCK_SIZE * length chain <= length encrypted_data)%nat ->
  take (AES_BLOCK_SIZE * length chain) (store_ciphertext 0 chain encrypted_data) =
  ciphertext_of chain.
Proof.
  intros Hall Hlen. apply list_eq. intros j.
  assert (Hinit : forallb call_succeeded (removelast chain) = true).
  { destruct chain as [|c chain] using rev_ind; [reflexivity|].
    rewrite removelast_last. rewrite forallb_app in Hall.
    apply andb_true_iff in Hall as [Hall _]. exact Hall. }
  pose proof (forallb_successes chain Hall) as Hsucc.
  pose proof (ciphertext_of_length chain) as Hct. rewrite Hsucc in Hct.
  destruct (decide (j < AES_BLOCK_SIZE * length chain)%nat) as [Hj | Hj].
  - rewrite lookup_take_lt by exact Hj.
    rewrite store_ciphertext_lookup by exact Hinit. rewrite Hsucc.
    rewrite decide_True by lia. f_equal. lia.
  - rewrite lookup_take_ge by lia. symmetry. apply lookup_ge_None_2. lia.
Qed.

Lemma store_ciphertext_drop (chain : list AES_call) (encrypted_data : list Z) (m : nat) :
  forallb call_succeeded (removelast chain) = true ->
  (AES_BLOCK_SIZE * successes chain <= m)%nat ->
  drop m (store_ciphertext 0 chain encrypted_data) = drop m encrypted_data.
Proof.
  intros Hinit Hm. apply list_eq. intros j. rewrite !lookup_drop.
  rewrite store_ciphertext_lookup by exact Hinit.
  rewrite decide_False by lia. reflexivity.
Qed.


Lemma blocks_of_length (data : list Z) (n : nat) : length (blocks_of data n) = n.
Proof. unfold blocks_of. rewrite length_map, length_seq. reflexivity. Qed.

Lemma blocks_of_lookup (data : list Z) (n k : nat) (block : list Z) :
  blocks_of data n !! k = Some block ->
  (k < n)%nat /\ block = slice data (k * AES_BLOCK_SIZE) AES_BLOCK_SIZE.
Proof.
  unfold blocks_of. rewrite list_lookup_fmap. intros H.
  destruct (seq 0 n !! k) as [i|] eqn:Hi; [|discriminate].
  apply lookup_seq in Hi as [-> Hlt]. injection H as <-. split; [exact Hlt | reflexivity].
Qed.


Section CipherClaims.

Variable AES_encrypt : list Z -> list Z -> list Z -> list Z -> Z * list Z.

Local Abbreviation encrypt := (MCU_API_aes_128_cbc_encrypt AES_encrypt).


(** C1.  For a length that is a multiple of 16 (and buffers that hold
    that many bytes) the invocations of the AES core are exactly the CBC
    chain over the blocks of the input taken in order: invocation [k] gets
    block [k] of the input; invocation 0 gets the all-zero vector;
    invocation [k+1] is made only after invocation [k] succeeded and gets as
    its vector the ciphertext of block [k], which is also what block [k] of
    the output buffer holds.  The call succeeds exactly when all the blocks
    were encrypted, and the output then is the ciphertext of the chain.
    Nothing is carried from one call to the next: the result is a function
    of the arguments, and status, invocations and ciphertext do not even
    depend on what the output buffer held before. *)
Theorem MCU_API_aes_128_cbc_encrypt_chaining (nvm : NVM_t)
    (encrypted_data data_to_encrypt : list Z) (aes_block_len : Z) (key : list Z)
    (use_key : sfx_credentials_use_key_t) (local_key : list Z) :
  0 <= aes_block_len < 256 ->
  aes_block_len mod 16 = 0 ->
  (Z.to_nat aes_block_len <= length data_to_encrypt)%nat ->
  (Z.to_nat aes_block_len <= length encrypted_data)%nat ->
  select_key nvm key use_key = Some local_key ->
  exists status out calls,
    encrypt nvm encrypted_data data_to_encrypt aes_block_len key use_key
      = (status, out, calls) /\
    calls = cbc_chain AES_encrypt local_key (replicate AES_BLOCK_SIZE 0)
              (blocks_of data_to_encrypt (Z.to_nat (aes_block_len / 16))) /\
    (forall (k : nat) c,
       calls !! k = Some c ->
       (k < Z.to_nat (aes_block_len / 16))%nat /\
       aes_data_in c = slice data_to_encrypt (k * AES_BLOCK_SIZE) AES_BLOCK_SIZE /\
       aes_init_vector c =
         match k with
         | O => replicate AES_BLOCK_SIZE 0
         | S k' => slice out (k' * AES_BLOCK_SIZE) AES_BLOCK_SIZE
         end /\
       forallb call_succeeded (take k calls) = true /\
       (call_succeeded c = true ->
        slice out (k * AES_BLOCK_SIZE) AES_BLOCK_SIZE
          = slice (aes_data_out c) 0 AES_BLOCK_SIZE)) /\
    (status = SFX_ERR_NONE <->
     length calls = Z.to_nat (aes_block_len / 16) /\ forallb call_succeeded calls = true) /\
    (status = SFX_ERR_NONE -> take (Z.to_nat aes_block_len) out = ciphertext_of calls) /\
    length out = length encrypted_data /\
    drop (Z.to_nat aes_block_len) out = drop (Z.to_nat aes_block_len) encrypted_data /\
    (forall previous_contents,
       (Z.to_nat aes_block_len <= length previous_contents)%nat ->
       exists out',
         encrypt nvm previous_contents data_to_encrypt aes_block_len key use_key
           = (status, out', calls) /\
         (status = SFX_ERR_NONE ->
          take (Z.to_nat aes_block_len) out' = take (Z.to_nat aes_block_len) out)).
Proof.
  intros Hrange Hmod Hin Hout Hkey.
  assert (Hlen : Z.to_nat aes_block_len = (AES_BLOCK_SIZE * Z.to_nat (aes_block_len / 16))%nat).
  { unfold AES_BLOCK_SIZE. pose proof (Z.div_mod aes_block_len 16). lia. }
  set (n := Z.to_nat (aes_block_len / 16)) in *.
  set (chain := cbc_chain AES_encrypt local_key (replicate AES_BLOCK_SIZE 0)
                  (blocks_of data_to_encrypt n)).
  assert (Hrun : forall buffer,
             encrypt nvm buffer data_to_encrypt aes_block_len key use_key
             = (chain_status chain, store_ciphertext 0 chain buffer, chain)).
  { intros buffer. rewrite MCU_API_aes_128_cbc_encrypt_chain, Hkey. reflexivity. }
  pose proof (cbc_chain_prefix_succeeds AES_encrypt local_key (blocks_of data_to_encrypt n)
                (replicate AES_BLOCK_SIZE 0)) as Hinit. fold chain in Hinit.
  destruct (cbc_chain_length AES_encrypt local_key (blocks_of data_to_encrypt n)
              (replicate AES_BLOCK_SIZE 0)) as [Hle Hfull].
  fold chain in Hle, Hfull. rewrite blocks_of_length in Hle, Hfull.
  assert (Hstatus : chain_status chain = SFX_ERR_NONE <-> forallb call_succeeded chain = true).
  { unfold chain_status. destruct (forallb call_succeeded chain); split; congruence. }
  assert (Htake : forall buffer,
             (Z.to_nat aes_block_len <= length buffer)%nat ->
             chain_status chain = SFX_ERR_NONE ->
             take (Z.to_nat aes_block_len) (store_ciphertext 0 chain buffer)
             = ciphertext_of chain).
  { intros buffer Hbuf Hok. apply Hstatus in Hok.
    rewrite Hlen, <- (Hfull Hok). apply store_ciphertext_take; [exact Hok|].
    rewrite (Hfull Hok). lia. }
  exists (chain_status chain), (store_ciphertext 0 chain encrypted_data), chain.
  split; [apply Hrun|]. split; [reflexivity|].
  split; [|split; [|split; [|split; [|split]]]].
  - intros k c Hk.
    destruct (cbc_chain_lookup AES_encrypt local_key _ _ k c Hk) as (Hblock & _ & Hiv & Hprev).
    fold chain in Hiv, Hprev.
    apply blocks_of_lookup in Hblock as [Hkn Hblock].
    assert (Hwritten : forall (i : nat) ci,
               chain !! i = Some ci -> (i < n)%nat ->
               forallb call_succeeded (take i chain) = true ->
               call_succeeded ci = true ->
               slice (store_ciphertext 0 chain encrypted_data) (i * AES_BLOCK_SIZE) AES_BLOCK_SIZE
               = slice (aes_data_out ci) 0 AES_BLOCK_SIZE).
    { intros i ci Hi Hin' Hpre Hci. apply store_ciphertext_block; try assumption.
      - rewrite (take_S_r _ _ _ Hi), forallb_app, Hpre. simpl. rewrite Hci. reflexivity.
      - unfold AES_BLOCK_SIZE in *. lia. }
    split; [exact Hkn|]. split; [exact Hblock|]. split; [|split; [exact Hprev|]].
    + rewrite Hiv. destruct k as [|k']; [reflexivity|].
      assert (Hk' : (k' < length chain)%nat) by (apply lookup_lt_Some in Hk; lia).
      apply lookup_lt_is_Some_2 in Hk' as [c' Hc']. rewrite Hc'. simpl.
      rewrite (take_S_r _ _ _ Hc'), forallb_app in Hprev.
      apply andb_true_iff in Hprev as [Hpre Hc'ok]. simpl in Hc'ok.
      rewrite andb_true_r in Hc'ok.
      symmetry. apply Hwritten; try assumption. lia.
    + intros Hc. apply Hwritten; assumption.
  - rewrite Hstatus. split; [intros H; split; [apply Hfull, H | exact H] | intros [_ H]; exact H].
  - apply Htake, Hout.
  - apply store_ciphertext_length.
  - apply store_ciphertext_drop; [exact Hinit|].
    pose proof (successes_le_length chain). unfold AES_BLOCK_SIZE in *. lia.
  - intros previous Hprevious. exists (store_ciphertext 0 chain previous).
    split; [apply Hrun|]. intros Hok.
    rewrite (Htake previous Hprevious Hok), (Htake encrypted_data Hout Hok). reflexivity.
Qed.

End CipherClaims.

Section CipherKeyAndLength.

Variable AES_encrypt : list Z -> list Z -> list Z -> list Z -> Z * list Z.

Local Abbreviation encrypt := (MCU_API_aes_128_cbc_encrypt AES_encrypt).




End CipherKeyAndLength.

(** Runs of the cipher on a 40-byte message 1, 2, ..., 40. *)
Example MCU_API_aes_128_cbc_encrypt_two_blocks :
  MCU_API_aes_128_cbc_encrypt xor_core (mkNVM (map Z.of_nat (seq 100 32)) false false)
    (replicate 40 9) (map Z.of_nat (seq 1 40)) 40 (replicate 16 0) CREDENTIALS_KEY_IN_ARGUMENT
  = (SFX_ERR_NONE,
     [1; 2; 3; 4; 5; 6; 7; 8; 9; 10; 11; 12; 13; 14; 15; 16;
      16; 16; 16; 16; 16; 16; 16; 16; 16; 16; 16; 16; 16; 16; 16; 48;
      9; 9; 9; 9; 9; 9; 9; 9],
     [mkAES_call [1; 2; 3; 4; 5; 6; 7; 8; 9; 10; 11; 12; 13; 14; 15; 16]
        (replicate 16 0) (replicate 16 0) AES_SUCCESS
        [1; 2; 3; 4; 5; 6; 7; 8; 9; 10; 11; 12; 13; 14; 15; 16];
      mkAES_call [17; 18; 19; 20; 21; 22; 23; 24; 25; 26; 27; 28; 29; 30; 31; 32]
        [1; 2; 3; 4; 5; 6; 7; 8; 9; 10; 11; 12; 13; 14; 15; 16]
        (replicate 16 0) AES_SUCCESS
        [16; 16; 16; 16; 16; 16; 16; 16; 16; 16; 16; 16; 16; 16; 16; 48]]).
Proof. vm_compute. reflexivity. Qed.

Example MCU_API_aes_128_cbc_encrypt_core_timeout :
  let '(status, out, calls) :=
    MCU_API_aes_128_cbc_encrypt faulty_core (mkNVM (map Z.of_nat (seq 100 32)) false false)
      (replicate 32 9) (map Z.of_nat (seq 1 16) ++ 255 :: map Z.of_nat (seq 1 15)) 32
      (replicate 16 0) CREDENTIALS_PRIVATE_KEY in
  status = MCU_ERR_API_AES /\ length calls = 2%nat /\
  map aes_status calls = [AES_SUCCESS; AES_ERROR_TIMEOUT] /\
  drop 16 out = replicate 16 9.
Proof. vm_compute. repeat split; reflexivity. Qed.

Lemma MCU_API_aes_128_cbc_encrypt_chaining_witness :
  exists status out calls,
    MCU_API_aes_128_cbc_encrypt xor_core (mkNVM (map Z.of_nat (seq 100 32)) false false)
      (replicate 32 9) (map Z.of_nat (seq 1 32)) 32 (replicate 16 0)
      CREDENTIALS_KEY_IN_ARGUMENT = (status, out, calls) /\
    (status = SFX_ERR_NONE <-> length calls = 2%nat /\ forallb call_succeeded calls = true) /\
    (status = SFX_ERR_NONE -> take 32 out = ciphertext_of calls).
Proof.
  destruct (MCU_API_aes_128_cbc_encrypt_chaining xor_core
              (mkNVM (map Z.of_nat (seq 100 32)) false false)
              (replicate 32 9) (map Z.of_nat (seq 1 32)) 32 (replicate 16 0)
              CREDENTIALS_KEY_IN_ARGUMENT (replicate 16 0))
    as (status & out & calls & Hrun & _ & _ & Hstatus & Htake & _);
    [lia | reflexivity | vm_compute; lia | vm_compute; lia | reflexivity |].
  exists status, out, calls. split; [exact Hrun|]. split; [exact Hstatus | exact Htake].
Defined.



(** * Further properties *)

(** ** Sequence-state record: round trip, frame, failures *)

(** X1.  Writing the record and reading it back gives the seven bytes written;
    the rest of the read buffer is not touched. *)
Theorem MCU_API_nv_mem_round_trip (store data_to_write read_data : list Z) :
  NVM_ADDRESS_LAST <= Z.of_nat (length store) ->
  (SFX_NVMEM_BLOCK_SIZE <= length data_to_write)%nat ->
  (SFX_NVMEM_BLOCK_SIZE <= length read_data)%nat ->
  exists nvm' read_data',
    MCU_API_set_nv_mem (mkNVM store false false) data_to_write = (SFX_ERR_NONE, nvm') /\
    MCU_API_get_nv_mem nvm' read_data = (SFX_ERR_NONE, read_data') /\
    take SFX_NVMEM_BLOCK_SIZE read_data' = take SFX_NVMEM_BLOCK_SIZE data_to_write /\
    drop SFX_NVMEM_BLOCK_SIZE read_data' = drop SFX_NVMEM_BLOCK_SIZE read_data.
Proof.
  intros Hsize Hdata Hread. unfold SFX_NVMEM_BLOCK_SIZE in *.
  rewrite MCU_API_set_nv_mem_success by exact Hsize.
  eexists; eexists; split; [reflexivity|].
  rewrite MCU_API_get_nv_mem_success
    by (unfold NVM_SPACE_SIZE; simpl; rewrite !length_insert; exact Hsize).
  split; [reflexivity|]. unfold NVM_ADDRESS_LAST in Hsize. simpl eeprom.
  split.
  - apply list_eq. intros j.
    destruct (decide (j < 7)%nat) as [Hj | Hj].
    + rewrite !lookup_take_lt by exact Hj.
      assert (Hin : is_Some (data_to_write !! j)) by (apply lookup_lt_is_Some_2; lia).
      destruct Hin as [x Hx]. rewrite Hx.
      do 7 (destruct j as [|j];
            [ rewrite ?list_lookup_insert_ne by lia;
              rewrite list_lookup_insert_eq by (rewrite ?length_insert; lia);
              insert_lookups; unfold byte_at; rewrite Hx; reflexivity |]).
      lia.
    + rewrite !lookup_take_ge by lia. reflexivity.
  - apply list_eq. intros j. rewrite !lookup_drop.
    rewrite !list_lookup_insert_ne by lia. reflexivity.
Qed.

Lemma MCU_API_nv_mem_round_trip_witness :
  exists nvm' read_data',
    MCU_API_set_nv_mem (mkNVM (replicate 64 255) false false) [1; 2; 3; 4; 5; 6; 7]
      = (SFX_ERR_NONE, nvm') /\
    MCU_API_get_nv_mem nvm' (replicate 9 0) = (SFX_ERR_NONE, read_data') /\
    take 7 read_data' = [1; 2; 3; 4; 5; 6; 7] /\
    drop 7 read_data' = [0; 0].
Proof.
  apply (MCU_API_nv_mem_round_trip (replicate 64 255) [1; 2; 3; 4; 5; 6; 7] (replicate 9 0));
    vm_compute; first [discriminate | lia].
Defined.

Lemma nvm_frame_refl (nvm : NVM_t) : nvm_frame nvm nvm.
Proof. repeat split. Qed.

Lemma nvm_frame_trans (n1 n2 n3 : NVM_t) :
  nvm_frame n1 n2 -> nvm_frame n2 n3 -> nvm_frame n1 n3.
Proof.
  intros (Hu1 & Hl1 & Hlen1 & Hf1) (Hu2 & Hl2 & Hlen2 & Hf2).
  repeat split; try congruence. intros a Ha. rewrite Hf2, Hf1 by exact Ha. reflexivity.
Qed.

Lemma NVM_write_byte_frame (nvm : NVM_t) (address data : Z) :
  NVM_ADDRESS_SIGFOX_PN <= address < NVM_ADDRESS_LAST ->
  nvm_frame nvm (snd (NVM_write_byte nvm address data)).
Proof.
  intros Ha. unfold NVM_write_byte. destruct nvm as [store u l]. simpl.
  destruct (NVM_SPACE_SIZE _ <=? address); [apply nvm_frame_refl|].
  destruct u; [apply nvm_frame_refl|].
  assert (Hw : forall l', nvm_frame (mkNVM store false l')
                            (mkNVM (<[Z.to_nat address := data]> store) false l')).
  { intros l'. repeat split; simpl; [apply length_insert|].
    intros a Hout. apply list_lookup_insert_ne.
    unfold NVM_ADDRESS_SIGFOX_PN, NVM_ADDRESS_LAST in *. lia. }
  destruct l; apply Hw.
Qed.

Ltac nv_write_step :=
  match goal with
  | |- context [NVM_write_byte ?n ?a ?d] =>
      let H := fresh "Hstep" in
      pose proof (NVM_write_byte_frame n a d
                    ltac:(unfold NVM_ADDRESS_SIGFOX_PN, NVM_ADDRESS_SIGFOX_MESSAGE_COUNTER,
                            NVM_ADDRESS_SIGFOX_FH, NVM_ADDRESS_SIGFOX_RL, NVM_ADDRESS_LAST;
                          lia)) as H;
      destruct (NVM_write_byte n a d) as [? ?]; simpl in H
  end.

Lemma MCU_API_set_nv_mem_frame (nvm : NVM_t) (data_to_write : list Z) :
  nvm_frame nvm (snd (MCU_API_set_nv_mem nvm data_to_write)).
Proof.
  unfold MCU_API_set_nv_mem.
  repeat (nv_write_step;
          match goal with
          | |- context [negb (?s =? NVM_SUCCESS)] =>
              destruct (negb (s =? NVM_SUCCESS));
              [simpl; repeat (eapply nvm_frame_trans; [eassumption|]); apply nvm_frame_refl |]
          end).
  simpl. repeat (eapply nvm_frame_trans; [eassumption|]). apply nvm_frame_refl.
Qed.

(** X2.  On every path, successful or not, MCU_API_set_nv_mem changes nothing
    outside the addresses 20..26 of the record: the size of the space and
    the device identifier and key stay as they were.  Hence the key the
    cipher selects, and with it every encryption, is the same before and
    after the record is written. *)
Theorem MCU_API_set_nv_mem_preserves_credentials
    (AES_encrypt : list Z -> list Z -> list Z -> list Z -> Z * list Z)
    (nvm : NVM_t) (data_to_write : list Z) :
  let nvm' := snd (MCU_API_set_nv_mem nvm data_to_write) in
  NVM_SPACE_SIZE nvm' = NVM_SPACE_SIZE nvm /\
  (forall a : nat,
     (a < Z.to_nat NVM_ADDRESS_SIGFOX_PN \/ Z.to_nat NVM_ADDRESS_LAST <= a)%nat ->
     eeprom nvm' !! a = eeprom nvm !! a) /\
  (forall key use_key, select_key nvm' key use_key = select_key nvm key use_key) /\
  (forall encrypted_data data_to_encrypt aes_block_len key use_key,
     MCU_API_aes_128_cbc_encrypt AES_encrypt nvm' encrypted_data data_to_encrypt
       aes_block_len key use_key
     = MCU_API_aes_128_cbc_encrypt AES_encrypt nvm encrypted_data data_to_encrypt
         aes_block_len key use_key).
Proof.
  intros nvm'.
  destruct (MCU_API_set_nv_mem_frame nvm data_to_write) as (_ & _ & Hlen & Hframe).
  fold nvm' in Hlen, Hframe.
  assert (Hsize : NVM_SPACE_SIZE nvm' = NVM_SPACE_SIZE nvm)
    by (unfold NVM_SPACE_SIZE; rewrite Hlen; reflexivity).
  assert (Hkey : forall key use_key, select_key nvm' key use_key = select_key nvm key use_key).
  { intros key use_key. rewrite !select_key_cases, Hsize.
    destruct use_key; try reflexivity.
    rewrite (slice_ext (eeprom nvm') (eeprom nvm)); [reflexivity|].
    intros j Hj. apply Hframe. left.
    unfold NVM_ADDRESS_SIGFOX_DEVICE_KEY, NVM_ADDRESS_SIGFOX_PN, AES_BLOCK_SIZE in *. lia. }
  split; [exact Hsize|]. split; [exact Hframe|]. split; [exact Hkey|].
  intros. rewrite !MCU_API_aes_128_cbc_encrypt_chain, Hkey. reflexivity.
Qed.

(** X3.  When the record cannot be written.  The call succeeds exactly when
    the space holds the seven addresses and neither the unlock nor the lock
    step fails.  With a failing unlock step nothing is written.  With a
    failing lock step the first byte of PN is written and stays written,
    and the call stops there with the error code: the record is not
    written as a whole. *)
Theorem MCU_API_set_nv_mem_failures (nvm : NVM_t) (data_to_write : list Z) :
  (fst (MCU_API_set_nv_mem nvm data_to_write) = SFX_ERR_NONE <->
   NVM_ADDRESS_LAST <= NVM_SPACE_SIZE nvm /\ unlock_fault nvm = false /\ lock_fault nvm = false) /\
  (fst (MCU_API_set_nv_mem nvm data_to_write) = SFX_ERR_NONE \/
   fst (MCU_API_set_nv_mem nvm data_to_write) = MCU_ERR_API_SETNVMEM) /\
  (unlock_fault nvm = true ->
   MCU_API_set_nv_mem nvm data_to_write = (MCU_ERR_API_SETNVMEM, nvm)) /\
  (unlock_fault nvm = false -> lock_fault nvm = true ->
   NVM_ADDRESS_SIGFOX_PN < NVM_SPACE_SIZE nvm ->
   MCU_API_set_nv_mem nvm data_to_write =
   (MCU_ERR_API_SETNVMEM,
    mkNVM (<[Z.to_nat NVM_ADDRESS_SIGFOX_PN := byte_at data_to_write SFX_NVMEM_PN]> (eeprom nvm))
          false true)).
Proof.
  destruct nvm as [store u l]. unfold NVM_ADDRESS_LAST, NVM_ADDRESS_SIGFOX_PN. simpl.
  assert (Hunlock : MCU_API_set_nv_mem (mkNVM store true l) data_to_write
                    = (MCU_ERR_API_SETNVMEM, mkNVM store true l)).
  { unfold MCU_API_set_nv_mem, NVM_write_byte. simpl.
    destruct (NVM_SPACE_SIZE _ <=? _); reflexivity. }
  assert (Hlock : 20 < Z.of_nat (length store) ->
            MCU_API_set_nv_mem (mkNVM store false true) data_to_write
            = (MCU_ERR_API_SETNVMEM,
               mkNVM (<[20%nat := byte_at data_to_write 0]> store) false true)).
  { intros Hsize. unfold MCU_API_set_nv_mem, NVM_write_byte, NVM_SPACE_SIZE. simpl.
    destruct (Z.leb_spec (Z.of_nat (length store)) (NVM_ADDRESS_SIGFOX_PN + 0));
      [unfold NVM_ADDRESS_SIGFOX_PN in *; lia | reflexivity]. }
  assert (Hshort : forall l', Z.of_nat (length store) < 27 ->
            fst (MCU_API_set_nv_mem (mkNVM store false l') data_to_write)
            = MCU_ERR_API_SETNVMEM).
  { intros l' Hsize. unfold MCU_API_set_nv_mem, NVM_write_byte, NVM_SPACE_SIZE.
    unfold NVM_ADDRESS_SIGFOX_PN, NVM_ADDRESS_SIGFOX_MESSAGE_COUNTER, NVM_ADDRESS_SIGFOX_FH,
      NVM_ADDRESS_SIGFOX_RL.
    cbn [eeprom unlock_fault lock_fault].
    destruct l'.
    - destruct (_ <=? _); reflexivity.
    - repeat (rewrite ?length_insert;
              match goal with
              | |- context [Z.of_nat (length store) <=? ?a] =>
                  destruct (Z.leb_spec (Z.of_nat (length store)) a); [reflexivity|];
                  cbn [eeprom unlock_fault lock_fault negb Z.eqb NVM_SUCCESS fst snd]
              end).
      lia. }
  assert (Hfit : Z.of_nat (length store) < 27 \/ 27 <= Z.of_nat (length store)) by lia.
  split; [|split; [|split]].
  - split.
    + intros Hok. destruct u; [rewrite Hunlock in Hok; discriminate|].
      destruct Hfit as [Hs | Hs]; [rewrite Hshort in Hok by exact Hs; discriminate|].
      destruct l; [rewrite Hlock in Hok by lia; discriminate|]. auto.
    + intros (Hs & -> & ->). rewrite MCU_API_set_nv_mem_success by exact Hs. reflexivity.
  - destruct u; [rewrite Hunlock; auto|].
    destruct Hfit as [Hs | Hs]; [rewrite Hshort by exact Hs; auto|].
    destruct l; [rewrite Hlock by lia; auto|].
    rewrite MCU_API_set_nv_mem_success by exact Hs. auto.
  - intros ->. exact Hunlock.
  - intros -> -> Hs. apply Hlock, Hs.
Qed.

Lemma MCU_API_set_nv_mem_failures_witness :
  MCU_API_set_nv_mem (mkNVM (replicate 32 255) true false) [1; 2; 3; 4; 5; 6; 7]
    = (MCU_ERR_API_SETNVMEM, mkNVM (replicate 32 255) true false) /\
  MCU_API_set_nv_mem (mkNVM (replicate 32 255) false true) [1; 2; 3; 4; 5; 6; 7]
    = (MCU_ERR_API_SETNVMEM,
       mkNVM (<[Z.to_nat NVM_ADDRESS_SIGFOX_PN := byte_at [1; 2; 3; 4; 5; 6; 7] SFX_NVMEM_PN]>
                (replicate 32 255)) false true).
Proof.
  split.
  - destruct (MCU_API_set_nv_mem_failures (mkNVM (replicate 32 255) true false)
                [1; 2; 3; 4; 5; 6; 7]) as (_ & _ & Hunlock & _).
    apply Hunlock. reflexivity.
  - destruct (MCU_API_set_nv_mem_failures (mkNVM (replicate 32 255) false true)
                [1; 2; 3; 4; 5; 6; 7]) as (_ & _ & _ & Hlock).
    apply Hlock; [reflexivity | reflexivity | vm_compute; reflexivity].
Defined.

(** X4.  Reading the record.  MCU_API_get_nv_mem succeeds exactly when the
    space holds the seven addresses of the record, and returns the read
    error code otherwise; on every path the buffer keeps its length and
    offsets from 7 on are not written. *)
Theorem MCU_API_get_nv_mem_failures (nvm : NVM_t) (read_data : list Z) :
  (fst (MCU_API_get_nv_mem nvm read_data) = SFX_ERR_NONE <->
   NVM_ADDRESS_LAST <= NVM_SPACE_SIZE nvm) /\
  (NVM_SPACE_SIZE nvm < NVM_ADDRESS_LAST ->
   fst (MCU_API_get_nv_mem nvm read_data) = MCU_ERR_API_GETNVMEM) /\
  (NVM_SPACE_SIZE nvm <= NVM_ADDRESS_SIGFOX_PN ->
   MCU_API_get_nv_mem nvm read_data = (MCU_ERR_API_GETNVMEM, read_data)) /\
  length (snd (MCU_API_get_nv_mem nvm read_data)) = length read_data /\
  (forall i : nat,
     (SFX_NVMEM_BLOCK_SIZE <= i)%nat ->
     snd (MCU_API_get_nv_mem nvm read_data) !! i = read_data !! i).
Proof.
  assert (Hshort : NVM_SPACE_SIZE nvm < NVM_ADDRESS_LAST ->
            fst (MCU_API_get_nv_mem nvm read_data) = MCU_ERR_API_GETNVMEM).
  { intros Hs. unfold NVM_ADDRESS_LAST in Hs.
    unfold MCU_API_get_nv_mem, NVM_read_byte_into, NVM_read_byte.
    unfold NVM_ADDRESS_SIGFOX_PN, NVM_ADDRESS_SIGFOX_MESSAGE_COUNTER, NVM_ADDRESS_SIGFOX_FH,
      NVM_ADDRESS_SIGFOX_RL.
    repeat match goal with
           | |- context [NVM_SPACE_SIZE nvm <=? ?a] =>
               destruct (Z.leb_spec (NVM_SPACE_SIZE nvm) a); [reflexivity|];
               cbn [negb Z.eqb NVM_SUCCESS fst snd]
           end.
    lia. }
  assert (Hshape : length (snd (MCU_API_get_nv_mem nvm read_data)) = length read_data /\
            forall i : nat, (SFX_NVMEM_BLOCK_SIZE <= i)%nat ->
              snd (MCU_API_get_nv_mem nvm read_data) !! i = read_data !! i).
  { unfold MCU_API_get_nv_mem, NVM_read_byte_into, SFX_NVMEM_BLOCK_SIZE, SFX_NVMEM_PN,
      SFX_NVMEM_MSG_COUNTER, SFX_NVMEM_FH, SFX_NVMEM_RL.
    repeat (match goal with
            | |- context [NVM_read_byte ?n ?a ?d] =>
                destruct (NVM_read_byte n a d) as [? ?]; cbv beta iota
            end;
            match goal with
            | |- context [negb (?s =? NVM_SUCCESS)] =>
                destruct (negb (s =? NVM_SUCCESS));
                [cbn [snd]; split;
                 [rewrite ?length_insert; reflexivity
                 |intros i Hi; rewrite ?list_lookup_insert_ne by (simpl; lia); reflexivity] |]
            end).
    cbn [snd]. split; [rewrite ?length_insert; reflexivity|].
    intros i Hi. rewrite ?list_lookup_insert_ne by (simpl; lia). reflexivity. }
  split; [|split; [exact Hshort|split; [|exact Hshape]]].
  - split.
    + intros Hok. destruct (Z.lt_ge_cases (NVM_SPACE_SIZE nvm) NVM_ADDRESS_LAST) as [Hs|Hs];
        [|exact Hs]. rewrite Hshort in Hok by exact Hs. discriminate.
    + intros Hs. rewrite MCU_API_get_nv_mem_success by exact Hs. reflexivity.
  - intros Hs. unfold MCU_API_get_nv_mem, NVM_read_byte_into.
    rewrite NVM_read_byte_out_of_range by (unfold NVM_ADDRESS_SIGFOX_PN in *; lia).
    cbn [negb Z.eqb NVM_ERROR_ADDRESS NVM_SUCCESS]. f_equal.
    apply list_eq. intros j. unfold SFX_NVMEM_PN, byte_at. simpl.
    destruct (decide (j = 0%nat)) as [-> | Hj].
    + destruct read_data; reflexivity.
    + apply list_lookup_insert_ne. lia.
Qed.

Lemma MCU_API_get_nv_mem_failures_witness :
  fst (MCU_API_get_nv_mem (mkNVM (replicate 24 7) false false) (replicate 7 0))
    = MCU_ERR_API_GETNVMEM /\
  MCU_API_get_nv_mem (mkNVM (replicate 16 7) false false) (replicate 7 0)
    = (MCU_ERR_API_GETNVMEM, replicate 7 0).
Proof.
  split.
  - destruct (MCU_API_get_nv_mem_failures (mkNVM (replicate 24 7) false false) (replicate 7 0))
      as (_ & Hshort & _).
    apply Hshort. reflexivity.
  - destruct (MCU_API_get_nv_mem_failures (mkNVM (replicate 16 7) false false) (replicate 7 0))
      as (_ & _ & Hempty & _).
    apply Hempty. vm_compute. discriminate.
Defined.

(** ** Device identifier *)

Lemma read_device_id_in_range (count : nat) :
  forall byte_idx nvm dev_id,
    Z.of_nat (byte_idx + count) <= NVM_SPACE_SIZE nvm ->
    read_device_id count byte_idx nvm dev_id =
    (Code SFX_ERR_NONE, copy_bytes count byte_idx dev_id 0 (eeprom nvm) 0).
Proof.
  induction count as [|count IH]; intros byte_idx nvm dev_id Hsize; [reflexivity|].
  cbn [read_device_id copy_bytes]. unfold NVM_read_byte_into, NVM_ADDRESS_SIGFOX_DEVICE_ID.
  rewrite NVM_read_byte_in_range by lia.
  change (negb (NVM_SUCCESS =? NVM_SUCCESS)) with false. cbv iota.
  rewrite IH by lia. rewrite Z.add_0_l, Nat2Z.id. reflexivity.
Qed.

Lemma read_device_id_out_of_range (count : nat) :
  forall byte_idx nvm dev_id,
    (0 < count)%nat ->
    NVM_SPACE_SIZE nvm < Z.of_nat (byte_idx + count) ->
    fst (read_device_id count byte_idx nvm dev_id) = MCU_ERR_API_GET_ID_PAYLOAD_ENCR_FLAG.
Proof.
  induction count as [|count IH]; intros byte_idx nvm dev_id Hpos Hsize; [lia|].
  cbn [read_device_id]. unfold NVM_read_byte_into, NVM_ADDRESS_SIGFOX_DEVICE_ID.
  destruct (Z.le_gt_cases (NVM_SPACE_SIZE nvm) (0 + Z.of_nat byte_idx)) as [Hout | Hin].
  - rewrite NVM_read_byte_out_of_range by exact Hout. reflexivity.
  - rewrite NVM_read_byte_in_range by lia.
    change (negb (NVM_SUCCESS =? NVM_SUCCESS)) with false. cbv iota.
    apply IH; lia.
Qed.

(** X5.  MCU_API_get_device_id_and_payload_encryption_flag reports payload
    encryption as disabled on every path, whatever the flag held before
    and also when it fails.  It succeeds exactly when the space holds the
    four bytes of the identifier, and then the first four bytes of the
    buffer are the bytes stored at addresses 0 to 3, the rest of the
    buffer being left alone. *)
Theorem MCU_API_get_device_id_behaviour (nvm : NVM_t) (dev_id : list Z) (flag : Z) :
  snd (MCU_API_get_device_id_and_payload_encryption_flag nvm dev_id flag) = SFX_FALSE /\
  (fst (fst (MCU_API_get_device_id_and_payload_encryption_flag nvm dev_id flag))
     = Code SFX_ERR_NONE <-> Z.of_nat ID_LENGTH <= NVM_SPACE_SIZE nvm) /\
  (NVM_SPACE_SIZE nvm < Z.of_nat ID_LENGTH ->
   fst (fst (MCU_API_get_device_id_and_payload_encryption_flag nvm dev_id flag))
     = MCU_ERR_API_GET_ID_PAYLOAD_ENCR_FLAG) /\
  (Z.of_nat ID_LENGTH <= NVM_SPACE_SIZE nvm -> (ID_LENGTH <= length dev_id)%nat ->
   let dev_id' := snd (fst (MCU_API_get_device_id_and_payload_encryption_flag nvm dev_id flag)) in
   take ID_LENGTH dev_id' = slice (eeprom nvm) (Z.to_nat NVM_ADDRESS_SIGFOX_DEVICE_ID) ID_LENGTH /\
   drop ID_LENGTH dev_id' = drop ID_LENGTH dev_id).
Proof.
  unfold MCU_API_get_device_id_and_payload_encryption_flag.
  assert (Hshort : NVM_SPACE_SIZE nvm < Z.of_nat ID_LENGTH ->
            fst (read_device_id ID_LENGTH 0 nvm dev_id) = MCU_ERR_API_GET_ID_PAYLOAD_ENCR_FLAG).
  { intros Hs. apply read_device_id_out_of_range; [unfold ID_LENGTH; lia | exact Hs]. }
  destruct (read_device_id ID_LENGTH 0 nvm dev_id) as [status dev_id'] eqn:Hrun.
  cbn [fst snd] in *.
  split; [reflexivity|]. split; [|split; [exact Hshort|]].
  - split.
    + intros ->. destruct (Z.lt_ge_cases (NVM_SPACE_SIZE nvm) (Z.of_nat ID_LENGTH)) as [Hs|Hs];
        [|exact Hs]. specialize (Hshort Hs). discriminate.
    + intros Hs. rewrite read_device_id_in_range in Hrun by exact Hs. congruence.
  - intros Hs Hlen. rewrite read_device_id_in_range in Hrun by exact Hs.
    apply (f_equal snd) in Hrun. cbn [snd] in Hrun. subst dev_id'. cbv zeta. split.
    + apply list_eq. intros j. rewrite slice_lookup.
      destruct (decide (j < ID_LENGTH)%nat) as [Hj | Hj].
      * rewrite lookup_take_lt by exact Hj. rewrite copy_bytes_lookup.
        rewrite decide_True by lia. do 2 f_equal.
        unfold NVM_ADDRESS_SIGFOX_DEVICE_ID. lia.
      * rewrite lookup_take_ge by lia. reflexivity.
    + apply list_eq. intros j. rewrite !lookup_drop, copy_bytes_lookup.
      rewrite decide_False by lia. reflexivity.
Qed.

Lemma MCU_API_get_device_id_behaviour_witness :
  fst (fst (MCU_API_get_device_id_and_payload_encryption_flag
              (mkNVM [1; 2; 3] false false) [0; 0; 0; 0] SFX_TRUE))
    = MCU_ERR_API_GET_ID_PAYLOAD_ENCR_FLAG /\
  take ID_LENGTH
    (snd (fst (MCU_API_get_device_id_and_payload_encryption_flag
                 (mkNVM (map Z.of_nat (seq 100 32)) false false) [0; 0; 0; 0; 9] SFX_TRUE)))
    = [100; 101; 102; 103].
Proof.
  split.
  - destruct (MCU_API_get_device_id_behaviour (mkNVM [1; 2; 3] false false) [0; 0; 0; 0] SFX_TRUE)
      as (_ & _ & Hshort & _).
    apply Hshort. reflexivity.
  - destruct (MCU_API_get_device_id_behaviour (mkNVM (map Z.of_nat (seq 100 32)) false false)
                [0; 0; 0; 0; 9] SFX_TRUE) as (_ & _ & _ & Hid).
    destruct Hid as [Htake _]; [vm_compute; discriminate | vm_compute; lia |].
    rewrite Htake. reflexivity.
Defined.

(** ** Inter-frame delay *)

(** X6.  MCU_API_delay makes one call to the low-power timer for each of the
    four delay types of its documentation, always in stop mode, with a
    duration inside the window the documentation gives for the type (0 to
    2 s, 500 ms, 1.4 to 4 s; none is given for the carrier-sense delay,
    which waits 1 s); the call succeeds exactly when the timer does.  For
    any other type it fails with the delay error code without waiting. *)
Theorem MCU_API_delay_behaviour (LPTIM_status : list LPTIM_event -> Z)
    (delay_type : sfx_delay_t) :
  let window :=
    match delay_type with
    | SFX_DLY_INTER_FRAME_TX => Some (0, 2000)
    | SFX_DLY_INTER_FRAME_TRX => Some (500, 500)
    | SFX_DLY_OOB_ACK => Some (1400, 4000)
    | SFX_DLY_CS_SLEEP => Some (1000, 1000)
    | SFX_DLY_other _ => None
    end in
  match window with
  | Some (low, high) =>
      exists delay_ms,
        low <= delay_ms <= high /\
        snd (MCU_API_delay LPTIM_status delay_type) = [LPTIM1_delay_milliseconds delay_ms 1] /\
        (fst (MCU_API_delay LPTIM_status delay_type) = Code SFX_ERR_NONE <->
         LPTIM_status [LPTIM1_delay_milliseconds delay_ms 1] = LPTIM_SUCCESS) /\
        (fst (MCU_API_delay LPTIM_status delay_type) = MCU_ERR_API_DLY <->
         LPTIM_status [LPTIM1_delay_milliseconds delay_ms 1] <> LPTIM_SUCCESS)
  | None => MCU_API_delay LPTIM_status delay_type = (MCU_ERR_API_DLY, [])
  end.
Proof.
  assert (Hcase : forall ms,
            snd (delay_case LPTIM_status ms) = [LPTIM1_delay_milliseconds ms 1] /\
            (fst (delay_case LPTIM_status ms) = Code SFX_ERR_NONE <->
             LPTIM_status [LPTIM1_delay_milliseconds ms 1] = LPTIM_SUCCESS) /\
            (fst (delay_case LPTIM_status ms) = MCU_ERR_API_DLY <->
             LPTIM_status [LPTIM1_delay_milliseconds ms 1] <> LPTIM_SUCCESS)).
  { intros ms. unfold delay_case.
    destruct (Z.eqb_spec (LPTIM_status [LPTIM1_delay_milliseconds ms 1]) LPTIM_SUCCESS)
      as [He | Hne]; simpl; (split; [reflexivity|]); split; split; intros H;
      try reflexivity; try assumption; try discriminate; try contradiction. }
  destruct delay_type; cbv zeta; cbn [MCU_API_delay]; try reflexivity;
    eexists; (split; [|apply Hcase]); lia.
Qed.

(** ** Voltage and temperature *)

Lemma s8_range (x : Z) : - 128 <= s8 x <= 127.
Proof. unfold s8. pose proof (Z.mod_pos_bound (x + 2 ^ 7) (2 ^ 8) eq_refl). lia. Qed.

Lemma s16_small (x : Z) : - 2 ^ 15 <= x < 2 ^ 15 -> s16 x = x.
Proof. intros H. unfold s16. rewrite Z.mod_small by lia. lia. Qed.

Lemma u16_u32 (x : Z) : u16 (u32 x) = x mod 2 ^ 16.
Proof.
  unfold u16, u32. apply Z.mod_mod_divide. exists (2 ^ 16). reflexivity.
Qed.

(** X7.  MCU_API_get_voltage_temperature switches the analog supply off on
    every path: whatever the ADC driver answers, the last power command
    before the return is ADC1_power_off, and the measurement is never
    started when the power-on failed.  It succeeds exactly when power-on,
    measurement and voltage read-out succeed.  On success both voltages
    are the supply voltage truncated to 16 bits and the temperature is ten
    times the signed 8-bit MCU temperature, between -1280 and 1270; on
    failure the three outputs are left as they were. *)
Theorem MCU_API_get_voltage_temperature_behaviour (ADC_answer : list ADC_event -> Z * Z)
    (voltage_idle voltage_tx temperature : Z) :
  let on_ok := fst (ADC_answer [ADC1_power_on]) =? ADC_SUCCESS in
  let measure_ok := fst (ADC_answer [ADC1_power_on; ADC1_perform_measurements]) =? ADC_SUCCESS in
  let read_out :=
    ADC_answer [ADC1_power_on; ADC1_perform_measurements; ADC1_power_off;
                ADC1_get_data ADC_DATA_INDEX_VMCU_MV] in
  let tmcu :=
    s8 (snd (ADC_answer [ADC1_power_on; ADC1_perform_measurements; ADC1_power_off;
                         ADC1_get_data ADC_DATA_INDEX_VMCU_MV; ADC1_get_tmcu])) in
  let '(status, (voltage_idle', voltage_tx', temperature'), trace) :=
    MCU_API_get_voltage_temperature ADC_answer voltage_idle voltage_tx temperature in
  analog_supply_off trace = true /\
  (on_ok = false -> trace = [ADC1_power_on; ADC1_power_off]) /\
  (status = Code SFX_ERR_NONE <->
   on_ok = true /\ measure_ok = true /\ (fst read_out =? ADC_SUCCESS) = true) /\
  (status = Code SFX_ERR_NONE \/ status = MCU_ERR_API_VOLT_TEMP) /\
  (status = MCU_ERR_API_VOLT_TEMP ->
   (voltage_idle', voltage_tx', temperature') = (voltage_idle, voltage_tx, temperature)) /\
  (status = Code SFX_ERR_NONE ->
   voltage_idle' = snd read_out mod 2 ^ 16 /\ voltage_tx' = voltage_idle' /\
   temperature' = tmcu * 10 /\ - 1280 <= temperature' <= 1270).
Proof.
  cbv zeta. unfold MCU_API_get_voltage_temperature, voltage_temperature_errors.
  cbn [app].
  destruct (fst (ADC_answer [ADC1_power_on]) =? ADC_SUCCESS) eqn:Hon; cbn [negb].
  2:{ repeat split; try discriminate; auto. intros (H & _); discriminate. }
  destruct (fst (ADC_answer [ADC1_power_on; ADC1_perform_measurements]) =? ADC_SUCCESS)
    eqn:Hmeasure; cbn [negb].
  2:{ repeat split; try discriminate; auto. intros (_ & H & _); discriminate. }
  destruct (ADC_answer [ADC1_power_on; ADC1_perform_measurements; ADC1_power_off;
                        ADC1_get_data ADC_DATA_INDEX_VMCU_MV]) as [read_status mv] eqn:Hread.
  cbn [fst snd].
  destruct (read_status =? ADC_SUCCESS) eqn:Hstatus; cbn [negb].
  2:{ repeat split; try discriminate; auto. intros (_ & _ & H); discriminate. }
  pose proof (s8_range (snd (ADC_answer [ADC1_power_on; ADC1_perform_measurements;
                                          ADC1_power_off; ADC1_get_data ADC_DATA_INDEX_VMCU_MV;
                                          ADC1_get_tmcu]))) as Ht.
  set (t := s8 _) in *.
  assert (Htemp : s16 (s16 t * 10) = t * 10).
  { rewrite (s16_small t) by lia. apply s16_small. lia. }
  rewrite Htemp, u16_u32.
  repeat split; try discriminate; auto; lia.
Qed.

(** ** Watchdog-bounded wait: the calls made *)

Section TimerShape.

Variable IWDG_REFRESH_PERIOD_SECONDS : Z.
Variable RTC_status : list MCU_event -> Z.


End TimerShape.



(** ** AES-128 CBC: a failing core, and prefixes of a message *)

Lemma ciphertext_of_app (chain1 chain2 : list AES_call) :
  ciphertext_of (chain1 ++ chain2) = ciphertext_of chain1 ++ ciphertext_of chain2.
Proof.
  induction chain1 as [|c chain1 IH]; [reflexivity|].
  rewrite <- app_comm_cons, !ciphertext_of_cons, IH, app_assoc. reflexivity.
Qed.

Lemma successes_app (chain1 chain2 : list AES_call) :
  successes (chain1 ++ chain2) = (successes chain1 + successes chain2)%nat.
Proof.
  induction chain1 as [|c chain1 IH]; [reflexivity|].
  rewrite <- app_comm_cons, !successes_cons, IH. lia.
Qed.

(** The written part of the buffer is the ciphertext of the blocks that
    succeeded. *)
Lemma store_ciphertext_written (chain : list AES_call) (encrypted_data : list Z) :
  forallb call_succeeded (removelast chain) = true ->
  (AES_BLOCK_SIZE * successes chain <= length encrypted_data)%nat ->
  take (AES_BLOCK_SIZE * successes chain) (store_ciphertext 0 chain encrypted_data)
  = ciphertext_of chain.
Proof.
  intros Hinit Hlen. apply list_eq. intros j.
  pose proof (ciphertext_of_length chain) as Hct.
  destruct (decide (j < AES_BLOCK_SIZE * successes chain)%nat) as [Hj | Hj].
  - rewrite lookup_take_lt by exact Hj.
    rewrite store_ciphertext_lookup by exact Hinit.
    rewrite decide_True by lia. f_equal. lia.
  - rewrite lookup_take_ge by lia. symmetry. apply lookup_ge_None_2. lia.
Qed.

Section CipherFailure.

Variable AES_encrypt : list Z -> list Z -> list Z -> list Z -> Z * list Z.

(** A chain that did not succeed as a whole ends with its one failed
    invocation. *)
Lemma cbc_chain_failed (local_key : list Z) (blocks : list (list Z)) :
  forall prev,
    forallb call_succeeded (cbc_chain AES_encrypt local_key prev blocks) = false ->
    exists done failed,
      cbc_chain AES_encrypt local_key prev blocks = done ++ [failed] /\
      forallb call_succeeded done = true /\
      call_succeeded failed = false /\
      (length done < length blocks)%nat.
Proof.
  induction blocks as [|plain rest IH]; intros prev Hfail; [discriminate|].
  cbn [cbc_chain] in *. destruct (AES_encrypt _ _ _ _) as [status cipher].
  destruct (status =? AES_SUCCESS) eqn:Hs.
  - cbn [forallb] in Hfail. unfold call_succeeded at 1 in Hfail. cbn [aes_status] in Hfail.
    rewrite Hs in Hfail. cbn [andb] in Hfail.
    destruct (IH cipher Hfail) as (done & failed & Hchain & Hdone & Hfailed & Hlen).
    eexists (_ :: done), failed. rewrite Hchain. split; [reflexivity|].
    split; [cbn [forallb]; unfold call_succeeded at 1; cbn [aes_status]; rewrite Hs; exact Hdone|].
    split; [exact Hfailed | simpl; lia].
  - eexists [], _. split; [reflexivity|]. split; [reflexivity|].
    split; [unfold call_succeeded; cbn [aes_status]; exact Hs | simpl; lia].
Qed.

(** X9.  When the AES core fails, the call returns the AES error code and
    stops at the failing block: the blocks before it hold their
    ciphertext, and the output buffer is as it was from the failing block
    on. No later block is submitted to the core. *)
Theorem MCU_API_aes_128_cbc_encrypt_core_failure (nvm : NVM_t)
    (encrypted_data data_to_encrypt : list Z) (aes_block_len : Z) (key : list Z)
    (use_key : sfx_credentials_use_key_t) (status : sfx_status) (out : list Z)
    (calls : list AES_call) :
  0 <= aes_block_len < 256 ->
  (Z.to_nat aes_block_len <= length encrypted_data)%nat ->
  is_Some (select_key nvm key use_key) ->
  MCU_API_aes_128_cbc_encrypt AES_encrypt nvm encrypted_data data_to_encrypt aes_block_len
    key use_key = (status, out, calls) ->
  status <> SFX_ERR_NONE ->
  status = MCU_ERR_API_AES /\
  exists done failed,
    calls = done ++ [failed] /\
    forallb call_succeeded done = true /\
    call_succeeded failed = false /\
    (length done < Z.to_nat (aes_block_len / 16))%nat /\
    take (AES_BLOCK_SIZE * length done) out = ciphertext_of done /\
    drop (AES_BLOCK_SIZE * length done) out
      = drop (AES_BLOCK_SIZE * length done) encrypted_data.
Proof.
  intros Hrange Hlen [local_key Hkey] Hrun Hstatus.
  rewrite MCU_API_aes_128_cbc_encrypt_chain, Hkey in Hrun.
  change (Z.of_nat AES_BLOCK_SIZE) with 16 in Hrun. cbv zeta in Hrun.
  set (n := Z.to_nat (aes_block_len / 16)) in *.
  set (chain := cbc_chain AES_encrypt local_key (replicate AES_BLOCK_SIZE 0)
                  (blocks_of data_to_encrypt n)) in *.
  injection Hrun as <- <- <-.
  unfold chain_status in *.
  destruct (forallb call_succeeded chain) eqn:Hall; [contradiction|].
  split; [reflexivity|].
  pose proof (cbc_chain_prefix_succeeds AES_encrypt local_key (blocks_of data_to_encrypt n)
                (replicate AES_BLOCK_SIZE 0)) as Hinit. fold chain in Hinit.
  destruct (cbc_chain_failed local_key _ _ Hall) as (done & failed & Hchain & Hdone & Hfailed & Hk).
  fold chain in Hchain. rewrite blocks_of_length in Hk.
  exists done, failed. split; [exact Hchain|]. split; [exact Hdone|]. split; [exact Hfailed|].
  split; [exact Hk|].
  assert (Hsucc : successes chain = length done).
  { rewrite Hchain, successes_app, (forallb_successes done Hdone), successes_cons, Hfailed.
    unfold successes. simpl. lia. }
  assert (Hct : ciphertext_of chain = ciphertext_of done).
  { rewrite Hchain, ciphertext_of_app, ciphertext_of_cons, Hfailed.
    unfold ciphertext_of at 3. simpl. rewrite app_nil_r. reflexivity. }
  assert (Hfits : (AES_BLOCK_SIZE * n <= Z.to_nat aes_block_len)%nat).
  { unfold n, AES_BLOCK_SIZE. pose proof (Z.mul_div_le aes_block_len 16). lia. }
  split.
  - rewrite <- Hsucc, <- Hct. apply store_ciphertext_written; [exact Hinit|].
    rewrite Hsucc. unfold AES_BLOCK_SIZE in *. lia.
  - apply store_ciphertext_drop; [exact Hinit|]. rewrite Hsucc. lia.
Qed.

End CipherFailure.

Lemma MCU_API_aes_128_cbc_encrypt_core_failure_witness :
  let run :=
    MCU_API_aes_128_cbc_encrypt faulty_core (mkNVM (map Z.of_nat (seq 100 32)) false false)
      (replicate 48 9) (map Z.of_nat (seq 1 16) ++ 255 :: map Z.of_nat (seq 1 31)) 48
      (replicate 16 0) CREDENTIALS_PRIVATE_KEY in
  fst (fst run) = MCU_ERR_API_AES /\
  exists done failed,
    snd run = done ++ [failed] /\
    forallb call_succeeded done = true /\
    call_succeeded failed = false /\
    (length done < Z.to_nat (48 / 16))%nat /\
    take (AES_BLOCK_SIZE * length done) (snd (fst run)) = ciphertext_of done /\
    drop (AES_BLOCK_SIZE * length done) (snd (fst run))
      = drop (AES_BLOCK_SIZE * length done) (replicate 48 9).
Proof.
  intros run.
  apply (MCU_API_aes_128_cbc_encrypt_core_failure faulty_core
           (mkNVM (map Z.of_nat (seq 100 32)) false false) (replicate 48 9)
           (map Z.of_nat (seq 1 16) ++ 255 :: map Z.of_nat (seq 1 31)) 48
           (replicate 16 0) CREDENTIALS_PRIVATE_KEY (fst (fst run)) (snd (fst run)) (snd run)).
  - lia.
  - vm_compute. lia.
  - eexists. reflexivity.
  - vm_compute. reflexivity.
  - vm_compute. discriminate.
Defined.

Lemma blocks_of_take (data : list Z) (m n : nat) :
  (m <= n)%nat -> take m (blocks_of data n) = blocks_of data m.
Proof.
  intros Hm. unfold blocks_of. rewrite <- fmap_take, take_seq.
  replace (m `min` n)%nat with m by lia. reflexivity.
Qed.

Lemma forallb_take (chain : list AES_call) (m : nat) :
  forallb call_succeeded chain = true -> forallb call_succeeded (take m chain) = true.
Proof.
  revert m. induction chain as [|c chain IH]; intros m H; [destruct m; reflexivity|].
  destruct m as [|m]; [reflexivity|].
  simpl in *. apply andb_true_iff in H as [Hc H]. rewrite Hc. apply IH, H.
Qed.

Section CipherPrefix.

Variable AES_encrypt : list Z -> list Z -> list Z -> list Z -> Z * list Z.

Lemma cbc_chain_take (local_key : list Z) (blocks : list (list Z)) :
  forall prev (m : nat),
    cbc_chain AES_encrypt local_key prev (take m blocks)
    = take m (cbc_chain AES_encrypt local_key prev blocks).
Proof.
  induction blocks as [|plain rest IH]; intros prev m; [destruct m; reflexivity|].
  destruct m as [|m]; [reflexivity|].
  cbn [take cbc_chain]. destruct (AES_encrypt _ _ _ _) as [status cipher].
  cbn [take]. f_equal. destruct (status =? AES_SUCCESS); [apply IH|].
  destruct m; reflexivity.
Qed.

(** X10.  Encrypting a shorter prefix of a message.  The invocations of the
    core for the first [len1] bytes are the first invocations made for
    [len2 >= len1] bytes, and when the longer message is encrypted with
    success so is the shorter one, its ciphertext being the beginning of
    the ciphertext of the longer one: the chain always restarts from the
    all-zero vector and a block depends on the blocks before it only. *)
Theorem MCU_API_aes_128_cbc_encrypt_prefix (nvm : NVM_t)
    (encrypted_data data_to_encrypt : list Z) (len1 len2 : Z) (key : list Z)
    (use_key : sfx_credentials_use_key_t) :
  0 <= len1 <= len2 ->
  len2 < 256 ->
  (Z.to_nat len2 <= length encrypted_data)%nat ->
  let run1 :=
    MCU_API_aes_128_cbc_encrypt AES_encrypt nvm encrypted_data data_to_encrypt len1 key use_key in
  let run2 :=
    MCU_API_aes_128_cbc_encrypt AES_encrypt nvm encrypted_data data_to_encrypt len2 key use_key in
  snd run1 = take (Z.to_nat (len1 / 16)) (snd run2) /\
  (fst (fst run2) = SFX_ERR_NONE ->
   fst (fst run1) = SFX_ERR_NONE /\
   take (AES_BLOCK_SIZE * Z.to_nat (len1 / 16)) (snd (fst run1))
   = take (AES_BLOCK_SIZE * Z.to_nat (len1 / 16)) (snd (fst run2))).
Proof.
  intros Hlen1 Hlen2 Hbuf run1 run2. subst run1 run2.
  rewrite !MCU_API_aes_128_cbc_encrypt_chain.
  change (Z.of_nat AES_BLOCK_SIZE) with 16.
  destruct (select_key nvm key use_key) as [local_key|]; cbv zeta; cbn [fst snd].
  2:{ split; [destruct (Z.to_nat (len1 / 16)); reflexivity | discriminate]. }
  set (n1 := Z.to_nat (len1 / 16)). set (n2 := Z.to_nat (len2 / 16)).
  assert (Hn : (n1 <= n2)%nat).
  { unfold n1, n2. apply Z2Nat.inj_le; try (apply Z.div_pos; lia).
    apply Z.div_le_mono; lia. }
  assert (Hfits : (AES_BLOCK_SIZE * n2 <= length encrypted_data)%nat).
  { unfold n2, AES_BLOCK_SIZE. pose proof (Z.mul_div_le len2 16). lia. }
  set (chain2 := cbc_chain AES_encrypt local_key (replicate AES_BLOCK_SIZE 0)
                   (blocks_of data_to_encrypt n2)).
  assert (Hchain : cbc_chain AES_encrypt local_key (replicate AES_BLOCK_SIZE 0)
                     (blocks_of data_to_encrypt n1) = take n1 chain2).
  { rewrite <- (blocks_of_take data_to_encrypt n1 n2 Hn). apply cbc_chain_take. }
  rewrite Hchain. split; [reflexivity|].
  unfold chain_status. intros Hok.
  destruct (forallb call_succeeded chain2) eqn:Hall; [|discriminate].
  rewrite (forallb_take chain2 n1 Hall). split; [reflexivity|].
  destruct (cbc_chain_length AES_encrypt local_key (blocks_of data_to_encrypt n2)
              (replicate AES_BLOCK_SIZE 0)) as [_ Hfull].
  fold chain2 in Hfull. rewrite blocks_of_length in Hfull. specialize (Hfull Hall).
  assert (Hlen : length (take n1 chain2) = n1) by (rewrite length_take; lia).
  pose proof (store_ciphertext_take (take n1 chain2) encrypted_data
                (forallb_take chain2 n1 Hall)) as Hout1.
  rewrite Hlen in Hout1. rewrite Hout1 by (unfold AES_BLOCK_SIZE in *; lia).
  pose proof (store_ciphertext_take chain2 encrypted_data Hall) as Hout2.
  rewrite Hfull in Hout2. specialize (Hout2 Hfits).
  replace (take (AES_BLOCK_SIZE * n1) (store_ciphertext 0 chain2 encrypted_data))
    with (take (AES_BLOCK_SIZE * n1)
            (take (AES_BLOCK_SIZE * n2) (store_ciphertext 0 chain2 encrypted_data)))
    by (rewrite take_take; f_equal; unfold AES_BLOCK_SIZE; lia).
  rewrite Hout2. rewrite <- (take_drop n1 chain2) at 2. rewrite ciphertext_of_app.
  symmetry. apply take_app_length'.
  rewrite ciphertext_of_length, (forallb_successes _ (forallb_take chain2 n1 Hall)), Hlen.
  reflexivity.
Qed.

End CipherPrefix.

Lemma MCU_API_aes_128_cbc_encrypt_prefix_witness :
  snd (MCU_API_aes_128_cbc_encrypt xor_core (mkNVM (map Z.of_nat (seq 100 32)) false false)
         (replicate 48 9) (map Z.of_nat (seq 1 48)) 20 (replicate 16 3)
         CREDENTIALS_KEY_IN_ARGUMENT)
  = take (Z.to_nat (20 / 16))
      (snd (MCU_API_aes_128_cbc_encrypt xor_core (mkNVM (map Z.of_nat (seq 100 32)) false false)
              (replicate 48 9) (map Z.of_nat (seq 1 48)) 48 (replicate 16 3)
              CREDENTIALS_KEY_IN_ARGUMENT)).
Proof.
  apply (MCU_API_aes_128_cbc_encrypt_prefix xor_core
           (mkNVM (map Z.of_nat (seq 100 32)) false false) (replicate 48 9)
           (map Z.of_nat (seq 1 48)) 20 48 (replicate 16 3) CREDENTIALS_KEY_IN_ARGUMENT);
    [lia | lia | vm_compute; lia].
Defined.

(** ** DMA engine: configuration, independence of the channels *)

(** Evaluates the bits of constant masks. *)
Ltac is_mask c :=
  lazymatch c with
  | Z.shiftl ?a ?b => is_mask a; is_mask b
  | not32 ?a => is_mask a
  | Zpos _ => idtac
  | Z0 => idtac
  end.

Ltac mask_bits :=
  repeat (rewrite Z.lor_spec || rewrite Z.land_spec);
  repeat match goal with
         | |- context [Z.testbit ?c ?m] =>
             is_mask c; is_mask m;
             let v := eval vm_compute in (Z.testbit c m) in
             lazymatch v with
             | true => change (Z.testbit c m) with true
             | false => change (Z.testbit c m) with false
             end
         end;
  rewrite ?orb_true_r, ?orb_false_r, ?andb_true_r, ?andb_false_r.

Ltac dma_fields :=
  cbn [DMA_exec DMA1_Channel2_3_IRQHandler DMA1_Channel4_5_6_7_IRQHandler DMA1_init_channel3
       DMA1_start_channel3 DMA1_stop_channel3 DMA1_set_channel3_source_addr
       DMA1_init_channel6 DMA1_start_channel6 DMA1_stop_channel6
       DMA1_set_channel6_dest_addr DMA1_disable
       NVIC_set_priority NVIC_enable_interrupt NVIC_disable_interrupt NEOM8N_switch_dma_buffer
       set_DMA1 set_tcif set_AHBENR DMA1 dma1_channel3_tcif RCC_AHBENR nvic_enabled nvic_priority
       neom8n_switch_dma_buffer_calls
       with_IFCR with_CCR3 with_CNDTR3 with_CPAR3 with_CMAR3 with_CCR6 with_CNDTR6 with_CPAR6
       with_CMAR6 with_CSELR
       ISR IFCR CCR3 CNDTR3 CPAR3 CMAR3 CCR6 CNDTR6 CPAR6 CMAR6 CSELR].






Ltac irq_cases :=
  cbn [DMA_exec]; unfold DMA1_Channel2_3_IRQHandler, DMA1_Channel4_5_6_7_IRQHandler;
  repeat match goal with
         | |- context [if ?c then _ else _] => destruct c
         end.





Ltac dma_step_cases :=
  irq_cases; dma_fields; cbn [NVIC_eqb map]; mask_bits; try reflexivity.

Lemma DMA_exec_channel3_step (step : DMA_step) (s : DMA_state) :
  is_channel3_step step = true -> channel6_view (DMA_exec step s) = channel6_view s.
Proof.
  intros Hstep. unfold channel6_view.
  destruct step; try discriminate Hstep; dma_step_cases.
Qed.

Lemma DMA_exec_channel6_step (step : DMA_step) (s : DMA_state) :
  is_channel6_step step = true -> channel3_view (DMA_exec step s) = channel3_view s.
Proof.
  intros Hstep. unfold channel3_view.
  destruct step; try discriminate Hstep; dma_step_cases.
Qed.

(** X12.  The two channels do not disturb each other.  Whatever is done on
    channel 3 (initialisation, start, stop, new source buffer, status read,
    its interrupt handler) leaves the registers of channel 6, its request
    selection, its interrupt line and the buffer switches of the GPS driver
    as they were; whatever is done on channel 6 leaves the registers of
    channel 3, its request selection, its interrupt line and the
    completion flag as they were. *)
Theorem DMA1_channels_independent (steps3 steps6 : list DMA_step) (s : DMA_state) :
  forallb is_channel3_step steps3 = true ->
  forallb is_channel6_step steps6 = true ->
  channel6_view (DMA_run steps3 s) = channel6_view s /\
  channel3_view (DMA_run steps6 s) = channel3_view s.
Proof.
  intros H3 H6. split.
  - revert s H3. induction steps3 as [|step steps IH]; intros s H3; [reflexivity|].
    cbn [forallb] in H3. apply andb_true_iff in H3 as [Hstep H3].
    change (DMA_run (step :: steps) s) with (DMA_run steps (DMA_exec step s)).
    rewrite (IH _ H3). now apply DMA_exec_channel3_step.
  - revert s H6. induction steps6 as [|step steps IH]; intros s H6; [reflexivity|].
    cbn [forallb] in H6. apply andb_true_iff in H6 as [Hstep H6].
    change (DMA_run (step :: steps) s) with (DMA_run steps (DMA_exec step s)).
    rewrite (IH _ H6). now apply DMA_exec_channel6_step.
Qed.

Lemma DMA1_channels_independent_witness :
  let s := set_DMA1 DMA_reset_state (mkDMA (2 ^ 9 + 2 ^ 21) 0 3 0 0 0 3 0 0 0 0) in
  channel6_view
    (DMA_run [Call_DMA1_init_channel3; Call_DMA1_set_channel3_source_addr 0x20000000 40;
              Call_DMA1_start_channel3; Irq_DMA1_Channel2_3; Call_DMA1_get_channel3_status;
              Call_DMA1_stop_channel3] s) = channel6_view s /\
  channel3_view
    (DMA_run [Call_DMA1_init_channel6 0x4000480C;
              Call_DMA1_set_channel6_dest_addr 0x20000100 82; Call_DMA1_start_channel6;
              Irq_DMA1_Channel4_5_6_7; Call_DMA1_stop_channel6] s) = channel3_view s.
Proof.
  cbv zeta. apply DMA1_channels_independent; reflexivity.
Defined.

Lemma DMA_exec_buffer_switch (step : DMA_step) (s : DMA_state) :
  neom8n_switch_dma_buffer_calls (DMA_exec step s) =
  neom8n_switch_dma_buffer_calls s ++
  (if is_irq_4_7 step && channel6_tcif6 s && channel6_tcie s then [0] else []).
Proof.
  unfold channel6_tcif6, channel6_tcie.
  destruct step; cbn [is_irq_4_7 andb]; rewrite ?app_nil_r;
    try (dma_fields; reflexivity); try reflexivity.
  - unfold DMA_exec, DMA1_Channel2_3_IRQHandler.
    repeat match goal with |- context [if ?c then _ else _] => destruct c end; reflexivity.
  - unfold DMA_exec, DMA1_Channel4_5_6_7_IRQHandler.
    rewrite !land_bit_test by lia. rewrite !negb_involutive.
    destruct (Z.testbit (ISR (DMA1 s)) 21), (Z.testbit (CCR6 (DMA1 s)) 1);
      cbn [andb]; rewrite ?app_nil_r; reflexivity.
Qed.

(** X13.  The buffer switch of the GPS driver is asked for by the channel 4-7
    interrupt handler only, once for each interrupt that finds the
    transfer-complete flag of channel 6 (TCIF6) and its interrupt enable
    (TCIE6) both set, and always with a line-end flag of zero: over any
    run of calls, interrupts and hardware register changes, the requests
    recorded are the earlier ones followed by that many zeros. *)
Theorem DMA1_Channel4_5_6_7_IRQHandler_buffer_switches (steps : list DMA_step) (s : DMA_state) :
  neom8n_switch_dma_buffer_calls (DMA_run steps s) =
  neom8n_switch_dma_buffer_calls s ++ replicate (buffer_switches steps s) 0.
Proof.
  revert s. induction steps as [|step steps IH]; intros s.
  - cbn [buffer_switches replicate]. now rewrite app_nil_r.
  - change (DMA_run (step :: steps) s) with (DMA_run steps (DMA_exec step s)).
    rewrite IH, DMA_exec_buffer_switch. cbn [buffer_switches].
    rewrite <- app_assoc. f_equal.
    destruct (is_irq_4_7 step && channel6_tcif6 s && channel6_tcie s); reflexivity.
Qed.










(** ** AT command and reply buffers *)

Lemma array_write_ok (a : list Z) (idx v : Z) :
  0 <= idx < Z.of_nat (length a) ->
  array_write a idx v = Some (<[Z.to_nat idx := v]> a).
Proof.
  intros H. unfold array_write.
  destruct (Z.leb_spec 0 idx); [|lia].
  destruct (Z.ltb_spec idx (Z.of_nat (length a))); [reflexivity | lia].
Qed.

Lemma ring_index_next (size : Z) :
  0 <= size < 128 -> u32 (size + 1) mod 128 = (size + 1) mod 128 /\
                     0 <= (size + 1) mod 128 < 128.
Proof.
  intros H. unfold u32. rewrite (Z.mod_small (size + 1)) by lia.
  split; [reflexivity | apply Z.mod_pos_bound; lia].
Qed.

Lemma ring_store_app (a : list Z) (size : Z) (l1 l2 : list Z) :
  ring_store 128 a size (l1 ++ l2) =
  match ring_store 128 a size l1 with
  | Some (a', size') => ring_store 128 a' size' l2
  | None => None
  end.
Proof.
  revert a size. induction l1 as [|b l1 IH]; intros a size; [reflexivity|].
  cbn [app ring_store]. destruct (array_write a size b); [apply IH | reflexivity].
Qed.

Lemma ring_distinct (size : Z) (j n : nat) :
  (j < n)%nat -> (n - j < 128)%nat ->
  Z.to_nat ((size + Z.of_nat j) mod 128) <> Z.to_nat ((size + Z.of_nat n) mod 128).
Proof.
  intros Hj Hn Heq.
  assert (H1 : 0 <= (size + Z.of_nat j) mod 128 < 128) by (apply Z.mod_pos_bound; lia).
  assert (H2 : 0 <= (size + Z.of_nat n) mod 128 < 128) by (apply Z.mod_pos_bound; lia).
  assert (Heq' : (size + Z.of_nat j) mod 128 = (size + Z.of_nat n) mod 128) by lia.
  clear Heq. revert Heq'.
  rewrite (Z.mod_eq (size + Z.of_nat j) 128), (Z.mod_eq (size + Z.of_nat n) 128) by lia.
  lia.
Qed.

(** The ring after any number of bytes: never a write outside the array;
    the index has advanced modulo 128; each of the last 128 bytes sits at
    its place; places not reached keep their contents. *)
Lemma ring_store_spec (a : list Z) (size : Z) (bytes : list Z) :
  length a = 128%nat -> 0 <= size < 128 ->
  exists a',
    ring_store 128 a size bytes = Some (a', (size + Z.of_nat (length bytes)) mod 128) /\
    length a' = 128%nat /\
    (forall j, (j < length bytes)%nat -> (length bytes - j <= 128)%nat ->
               a' !! Z.to_nat ((size + Z.of_nat j) mod 128) = bytes !! j) /\
    (forall i, (forall j, (j < length bytes)%nat ->
                          Z.to_nat ((size + Z.of_nat j) mod 128) <> i) ->
               a' !! i = a !! i).
Proof.
  intros Ha Hsize. induction bytes as [|b bytes IH] using rev_ind.
  - exists a. cbn [ring_store length]. rewrite Z.add_0_r, Z.mod_small by lia.
    repeat apply conj; [reflexivity | exact Ha | intros j Hj; lia | reflexivity].
  - destruct IH as (a1 & Hrun & Hlen & Hlast & Hframe).
    assert (Hidx : 0 <= (size + Z.of_nat (length bytes)) mod 128 < 128)
      by (apply Z.mod_pos_bound; lia).
    exists (<[Z.to_nat ((size + Z.of_nat (length bytes)) mod 128) := b]> a1).
    rewrite ring_store_app, Hrun. cbn [ring_store].
    rewrite array_write_ok by lia.
    rewrite length_app. cbn [length].
    repeat apply conj.
    + f_equal. f_equal. destruct (ring_index_next _ Hidx) as [-> _].
      rewrite Z.add_mod_idemp_l by lia. f_equal. lia.
    + now rewrite length_insert.
    + intros j Hj Hwin.
      destruct (decide (j = length bytes)) as [->|Hne].
      * rewrite list_lookup_insert_eq by lia.
        rewrite lookup_app_r by lia. now rewrite Nat.sub_diag.
      * rewrite list_lookup_insert_ne by (apply not_eq_sym, ring_distinct; lia).
        rewrite lookup_app_l by lia. apply Hlast; lia.
    + intros i Hi.
      rewrite list_lookup_insert_ne by (apply (Hi (length bytes)); lia).
      apply Hframe. intros j Hj. apply Hi. lia.
Qed.

(** From an empty ring, the bytes before the index are the tail of what
    was stored, as long as the index is. *)
Lemma ring_store_tail (a : list Z) (bytes : list Z) :
  length a = 128%nat ->
  let kept := Z.to_nat (Z.of_nat (length bytes) mod 128) in
  exists a',
    ring_store 128 a 0 bytes = Some (a', Z.of_nat (length bytes) mod 128) /\
    length a' = 128%nat /\
    take kept a' = drop (length bytes - kept) bytes.
Proof.
  intros Ha kept.
  destruct (ring_store_spec a 0 bytes Ha) as (a' & Hrun & Hlen & Hlast & _); [lia|].
  exists a'. rewrite Z.add_0_l in Hrun. repeat apply conj; [exact Hrun | exact Hlen |].
  assert (Hk : 0 <= Z.of_nat (length bytes) mod 128 < 128) by (apply Z.mod_pos_bound; lia).
  assert (Hle : Z.of_nat (length bytes) mod 128 <= Z.of_nat (length bytes))
    by (apply Z.mod_le; lia).
  apply list_eq. intros i. rewrite lookup_drop.
  destruct (decide (i < kept)%nat) as [Hi|Hi].
  - rewrite lookup_take_lt by exact Hi.
    rewrite <- (Hlast (length bytes - kept + i)%nat) by lia.
    f_equal. rewrite Z.add_0_l.
    replace (Z.of_nat (length bytes - kept + i))
      with (Z.of_nat i + Z.of_nat (length bytes) / 128 * 128).
    + rewrite Z.mod_add by lia. rewrite Z.mod_small by lia. lia.
    + pose proof (Z.mod_eq (Z.of_nat (length bytes)) 128). lia.
  - rewrite lookup_take_ge by lia. symmetry. apply lookup_ge_None_2. lia.
Qed.

(** A ring that does not wrap holds what it held before the index,
    followed by the bytes stored. *)
Lemma ring_store_short (a : list Z) (size : Z) (bytes : list Z) :
  length a = 128%nat -> 0 <= size -> size + Z.of_nat (length bytes) < 128 ->
  exists a',
    ring_store 128 a size bytes = Some (a', size + Z.of_nat (length bytes)) /\
    length a' = 128%nat /\
    take (Z.to_nat (size + Z.of_nat (length bytes))) a' = take (Z.to_nat size) a ++ bytes.
Proof.
  intros Ha Hsize Hfit.
  destruct (ring_store_spec a size bytes Ha) as (a' & Hrun & Hlen & Hlast & Hframe); [lia|].
  exists a'. rewrite Z.mod_small in Hrun by lia.
  repeat apply conj; [exact Hrun | exact Hlen |].
  apply list_eq. intros i.
  destruct (decide (i < Z.to_nat size)%nat) as [Hi|Hi].
  - rewrite lookup_take_lt by lia.
    rewrite lookup_app_l by (rewrite length_take; lia).
    rewrite lookup_take_lt by lia.
    apply Hframe. intros j Hj. rewrite Z.mod_small by lia. lia.
  - rewrite lookup_app_r by (rewrite length_take; lia).
    rewrite length_take, Nat.min_l by lia.
    destruct (decide (i < Z.to_nat size + length bytes)%nat) as [Hi'|Hi'].
    + rewrite lookup_take_lt by lia.
      rewrite <- (Hlast (i - Z.to_nat size)%nat) by lia.
      f_equal. rewrite Z.mod_small by lia. lia.
    + rewrite lookup_take_ge by lia. symmetry. apply lookup_ge_None_2. lia.
Qed.

Section ATBufferFacts.

Variables STRING_CHAR_CR STRING_CHAR_LF STRING_CHAR_NULL : Z.

Local Abbreviation fill := (_AT_fill_rx_buffer STRING_CHAR_CR STRING_CHAR_LF STRING_CHAR_NULL).
Local Abbreviation receive := (AT_receive_bytes STRING_CHAR_CR STRING_CHAR_LF STRING_CHAR_NULL).
Local Abbreviation line_end := (is_line_end STRING_CHAR_CR STRING_CHAR_LF).

Lemma AT_receive_bytes_app (l1 l2 : list Z) (at_ctx : AT_context_t) :
  receive (l1 ++ l2) at_ctx =
  match receive l1 at_ctx with
  | Some at_ctx' => receive l2 at_ctx'
  | None => None
  end.
Proof.
  revert at_ctx. induction l1 as [|b l1 IH]; intros at_ctx; [reflexivity|].
  cbn [app AT_receive_bytes]. destruct (fill b at_ctx); [apply IH | reflexivity].
Qed.

Lemma AT_receive_bytes_frozen (rx_bytes : list Z) (at_ctx : AT_context_t) :
  line_end_flag at_ctx <> 0 -> receive rx_bytes at_ctx = Some at_ctx.
Proof.
  intros Hflag. induction rx_bytes as [|b rx_bytes IH]; [reflexivity|].
  cbn [AT_receive_bytes]. unfold _AT_fill_rx_buffer.
  destruct (Z.eqb_spec (line_end_flag at_ctx) 0); [contradiction | exact IH].
Qed.

Lemma AT_fill_rx_buffer_step (rx_byte : Z) (at_ctx : AT_context_t) :
  AT_context_ok at_ctx ->
  exists at_ctx',
    fill rx_byte at_ctx = Some at_ctx' /\ AT_context_ok at_ctx' /\
    reply at_ctx' = reply at_ctx /\ reply_size at_ctx' = reply_size at_ctx /\
    (line_end_flag at_ctx' = line_end_flag at_ctx \/ line_end_flag at_ctx' = 1).
Proof.
  intros Hok. pose proof Hok as (Hlen & Hsize & Hrlen & Hrsize).
  unfold AT_COMMAND_BUFFER_SIZE in Hlen, Hsize. change (Z.to_nat 128) with 128%nat in Hlen.
  unfold _AT_fill_rx_buffer.
  destruct (line_end_flag at_ctx =? 0).
  - rewrite !array_write_ok by lia.
    destruct ((rx_byte =? STRING_CHAR_CR) || (rx_byte =? STRING_CHAR_LF));
      eexists; (split; [reflexivity|]); cbn [reply reply_size line_end_flag];
      (split; [|auto]); unfold AT_context_ok, AT_COMMAND_BUFFER_SIZE;
      cbn [command command_size reply reply_size]; rewrite length_insert;
      repeat apply conj; try assumption; try lia.
    + destruct (ring_index_next _ Hsize) as [-> H]. lia.
    + destruct (ring_index_next _ Hsize) as [-> H]. lia.
  - exists at_ctx. split; [reflexivity|]. split; [exact Hok|]. auto.
Qed.

(** X16.  Reception never writes outside the command buffer.  From a context
    whose arrays have their declared size of 128 and whose indexes are
    inside, any sequence of received bytes is stored without a write out
    of bounds, and the context is again of that kind; the reply buffer is
    not touched; and once a line end has been seen (line-end flag not
    zero) every further byte is dropped: the context stays as it is until
    the decoder resets it. *)
Theorem AT_fill_rx_buffer_in_bounds (rx_bytes : list Z) (at_ctx : AT_context_t) :
  AT_context_ok at_ctx ->
  exists at_ctx',
    receive rx_bytes at_ctx = Some at_ctx' /\
    AT_context_ok at_ctx' /\
    reply at_ctx' = reply at_ctx /\ reply_size at_ctx' = reply_size at_ctx /\
    (line_end_flag at_ctx <> 0 -> at_ctx' = at_ctx).
Proof.
  revert at_ctx. induction rx_bytes as [|b rx_bytes IH]; intros at_ctx Hok.
  - exists at_ctx. split; [reflexivity|]. split; [exact Hok|]. auto.
  - destruct (AT_fill_rx_buffer_step b at_ctx Hok) as (c1 & Hfill & Hok1 & Hr1 & Hs1 & _).
    destruct (IH c1 Hok1) as (c2 & Hrun & Hok2 & Hr2 & Hs2 & _).
    exists c2. cbn [AT_receive_bytes]. rewrite Hfill.
    split; [exact Hrun|]. split; [exact Hok2|].
    repeat apply conj; [congruence | congruence |].
    intros Hflag.
    pose proof (AT_receive_bytes_frozen (b :: rx_bytes) at_ctx Hflag) as Hfrozen.
    cbn [AT_receive_bytes] in Hfrozen. rewrite Hfill in Hfrozen. congruence.
Qed.

Lemma AT_receive_bytes_ring (rx_bytes : list Z) :
  forall at_ctx,
    forallb (fun b => negb (line_end b)) rx_bytes = true ->
    line_end_flag at_ctx = 0 ->
    receive rx_bytes at_ctx =
    match ring_store 128 (command at_ctx) (command_size at_ctx) rx_bytes with
    | Some (command', command_size') =>
        Some (mkAT command' command_size' 0 (reply at_ctx) (reply_size at_ctx))
    | None => None
    end.
Proof.
  induction rx_bytes as [|b rx_bytes IH]; intros at_ctx Hbytes Hflag.
  - destruct at_ctx as [c k f r rs]. cbn in Hflag. subst f. reflexivity.
  - cbn [forallb] in Hbytes. apply andb_true_iff in Hbytes as [Hb Hbytes].
    apply negb_true_iff in Hb. unfold is_line_end in Hb.
    cbn [AT_receive_bytes ring_store]. unfold _AT_fill_rx_buffer.
    rewrite Hflag, Hb. cbn [Z.eqb].
    destruct (array_write (command at_ctx) (command_size at_ctx) b); [|reflexivity].
    rewrite IH by (exact Hbytes || reflexivity). reflexivity.
Qed.

(** X17.  Reception of a command line.  From an empty command buffer, after
    the characters of a line (none of them a carriage return or a line
    feed), its line end (either of the two) and whatever is received
    behind it, the line-end flag is set, the command size is the length
    of the line modulo 128, and the buffer holds that many characters,
    the last ones of the line, followed by the null character.  So a
    line of at most 127 characters is stored whole and terminated; of a
    longer one only the characters behind the last multiple of 128 are
    kept. *)
Theorem AT_fill_rx_buffer_line
    (line more : list Z) (terminator : Z) (at_ctx : AT_context_t) :
  AT_context_ok at_ctx ->
  command_size at_ctx = 0 ->
  line_end_flag at_ctx = 0 ->
  forallb (fun b => negb (line_end b)) line = true ->
  line_end terminator = true ->
  let kept := Z.to_nat (Z.of_nat (length line) mod 128) in
  exists at_ctx',
    receive (line ++ terminator :: more) at_ctx = Some at_ctx' /\
    line_end_flag at_ctx' = 1 /\
    command_size at_ctx' = Z.of_nat kept /\
    take (S kept) (command at_ctx') = drop (length line - kept) line ++ [STRING_CHAR_NULL].
Proof.
  intros (Hlen & _) Hsize Hflag Hline Hend kept.
  change (Z.to_nat AT_COMMAND_BUFFER_SIZE) with 128%nat in Hlen.
  destruct (ring_store_tail (command at_ctx) line Hlen) as (a1 & Hrun & Hlen1 & Htail).
  fold kept in Htail.
  assert (Hk : 0 <= Z.of_nat (length line) mod 128 < 128) by (apply Z.mod_pos_bound; lia).
  eexists. rewrite AT_receive_bytes_app, AT_receive_bytes_ring by assumption.
  rewrite Hsize, Hrun. cbn [AT_receive_bytes].
  unfold _AT_fill_rx_buffer at 1. cbn [line_end_flag command command_size Z.eqb].
  unfold is_line_end in Hend. rewrite Hend.
  rewrite array_write_ok by lia.
  rewrite AT_receive_bytes_frozen by (cbn [line_end_flag]; lia).
  repeat apply conj; [reflexivity | reflexivity | cbn [command_size]; lia |].
  cbn [command]. fold kept.
  rewrite (take_S_r _ _ STRING_CHAR_NULL) by (apply list_lookup_insert_eq; lia).
  rewrite take_insert_ge by lia. now rewrite Htail.
Qed.

End ATBufferFacts.

Lemma AT_fill_rx_buffer_line_witness :
  exists at_ctx',
    AT_receive_bytes 13 10 0 ([65; 84] ++ 13 :: [10; 65])
      (mkAT (replicate 128 255) 0 0 (replicate 128 0) 0) = Some at_ctx' /\
    line_end_flag at_ctx' = 1 /\
    command_size at_ctx' = 2 /\
    take 3 (command at_ctx') = [65; 84; 0].
Proof.
  apply (AT_fill_rx_buffer_line 13 10 0 [65; 84] [10; 65] 13
           (mkAT (replicate 128 255) 0 0 (replicate 128 0) 0)).
  - unfold AT_context_ok. vm_compute. repeat apply conj; congruence.
  - reflexivity.
  - reflexivity.
  - reflexivity.
  - reflexivity.
Defined.

Lemma AT_fill_rx_buffer_in_bounds_witness :
  exists at_ctx',
    AT_receive_bytes 13 10 0 (replicate 300 65 ++ [13; 66])
      (mkAT (replicate 128 255) 127 0 (replicate 128 0) 5) = Some at_ctx' /\
    AT_context_ok at_ctx' /\
    reply at_ctx' = replicate 128 0 /\ reply_size at_ctx' = 5 /\
    (0 <> 0 -> at_ctx' = mkAT (replicate 128 255) 127 0 (replicate 128 0) 5).
Proof.
  apply (AT_fill_rx_buffer_in_bounds 13 10 0 (replicate 300 65 ++ [13; 66])
           (mkAT (replicate 128 255) 127 0 (replicate 128 0) 5)).
  unfold AT_context_ok. vm_compute. repeat apply conj; congruence.
Defined.

Lemma AT_reply_add_string_ring (tx_string : list Z) :
  forall at_ctx,
    forallb (fun c => negb (c =? 0)) tx_string = true ->
    _AT_reply_add_string tx_string at_ctx =
    match ring_store 128 (reply at_ctx) (reply_size at_ctx) tx_string with
    | Some (reply', reply_size') =>
        Some (mkAT (command at_ctx) (command_size at_ctx) (line_end_flag at_ctx)
                reply' reply_size')
    | None => None
    end.
Proof.
  induction tx_string as [|c tx_string IH]; intros at_ctx Hs.
  - destruct at_ctx. reflexivity.
  - cbn [forallb] in Hs. apply andb_true_iff in Hs as [Hc Hs].
    apply negb_true_iff in Hc.
    cbn [_AT_reply_add_string ring_store]. rewrite Hc. unfold _AT_reply_add_char.
    destruct (array_write (reply at_ctx) (reply_size at_ctx) c); [|reflexivity].
    rewrite IH by exact Hs. reflexivity.
Qed.

Lemma AT_reply_add_string_stops (tx_string behind : list Z) :
  forall at_ctx,
    forallb (fun c => negb (c =? 0)) tx_string = true ->
    _AT_reply_add_string (tx_string ++ 0 :: behind) at_ctx =
    _AT_reply_add_string tx_string at_ctx.
Proof.
  induction tx_string as [|c tx_string IH]; intros at_ctx Hs; [reflexivity|].
  cbn [forallb] in Hs. apply andb_true_iff in Hs as [Hc Hs].
  cbn [app _AT_reply_add_string].
  destruct (c =? 0); [reflexivity|].
  destruct (_AT_reply_add_char c at_ctx); [apply IH; exact Hs | reflexivity].
Qed.

(** X18.  Building and sending a reply.  A string is added up to its first
    null character, never writing outside the reply buffer; sending adds
    the two characters of the line end, hands the reply buffer to the
    USART2 driver with a size of (previous size + length of the string +
    2) modulo 128, and sets the reply size back to zero, leaving the
    command buffer alone.  When the whole reply fits in less than 128
    characters, the bytes handed over are what the reply held before,
    then the string, then carriage return and line feed; a longer reply
    wraps around, and what is sent is shorter than what was added. *)
Theorem AT_reply_send_contents (tx_string behind : list Z) (at_ctx : AT_context_t) :
  AT_context_ok at_ctx ->
  forallb (fun c => negb (c =? 0)) tx_string = true ->
  let total := reply_size at_ctx + Z.of_nat (length tx_string) + 2 in
  exists at_ctx1 at_ctx2 data,
    _AT_reply_add_string (tx_string ++ 0 :: behind) at_ctx = Some at_ctx1 /\
    _AT_reply_send at_ctx1 = Some (at_ctx2, [USART2_write data (total mod 128)]) /\
    reply_size at_ctx2 = 0 /\
    AT_context_ok at_ctx2 /\
    (command at_ctx2, command_size at_ctx2, line_end_flag at_ctx2) =
    (command at_ctx, command_size at_ctx, line_end_flag at_ctx) /\
    (total < 128 ->
     bytes_written (USART2_write data (total mod 128)) =
     take (Z.to_nat (reply_size at_ctx)) (reply at_ctx) ++ tx_string ++ AT_REPLY_END).
Proof.
  intros (Hclen & Hcsize & Hlen & Hsize) Hs total.
  change (Z.to_nat AT_REPLY_BUFFER_SIZE) with 128%nat in Hlen.
  unfold AT_REPLY_BUFFER_SIZE in Hsize.
  destruct (ring_store_spec (reply at_ctx) (reply_size at_ctx) tx_string Hlen Hsize)
    as (a1 & Hrun1 & Hlen1 & _).
  destruct (ring_store_spec (reply at_ctx) (reply_size at_ctx) (tx_string ++ AT_REPLY_END)
              Hlen Hsize) as (a2 & Hrun2 & Hlen2 & _).
  rewrite length_app in Hrun2. cbn [AT_REPLY_END length] in Hrun2.
  replace (reply_size at_ctx + Z.of_nat (length tx_string + 2)) with total in Hrun2
    by (unfold total; lia).
  pose proof Hrun2 as Hsplit. rewrite ring_store_app, Hrun1 in Hsplit.
  assert (Htotal : 0 <= total mod 128 < 128) by (apply Z.mod_pos_bound; lia).
  eexists _, _, a2.
  rewrite AT_reply_add_string_stops, AT_reply_add_string_ring by exact Hs.
  rewrite Hrun1. split; [reflexivity|].
  unfold _AT_reply_send.
  rewrite AT_reply_add_string_ring by reflexivity.
  cbn [reply reply_size command command_size line_end_flag].
  rewrite Hsplit. cbn [reply reply_size command command_size line_end_flag].
  split; [reflexivity|]. split; [reflexivity|].
  split; [unfold AT_context_ok, AT_REPLY_BUFFER_SIZE;
          cbn [reply reply_size command command_size]; repeat apply conj;
          solve [assumption | lia]|].
  split; [reflexivity|].
  intros Hfit. cbn [bytes_written].
  destruct (ring_store_short (reply at_ctx) (reply_size at_ctx) (tx_string ++ AT_REPLY_END)
              Hlen) as (a2' & Hrun2' & _ & Hcontents).
  - lia.
  - rewrite length_app. cbn [AT_REPLY_END length]. unfold total in Hfit. lia.
  - rewrite length_app in Hrun2', Hcontents. cbn [AT_REPLY_END length] in Hrun2', Hcontents.
    replace (reply_size at_ctx + Z.of_nat (length tx_string + 2)) with total
      in Hrun2', Hcontents by (unfold total; lia).
    rewrite Hrun2 in Hrun2'. rewrite Z.mod_small in Hrun2' by lia.
    injection Hrun2' as ->. rewrite Z.mod_small by lia. exact Hcontents.
Qed.

Lemma AT_reply_send_contents_witness :
  let at_ctx := mkAT (replicate 128 0) 0 1 (replicate 128 255) 0 in
  exists at_ctx1 at_ctx2 data,
    _AT_reply_add_string ([79; 75] ++ 0 :: [33]) at_ctx = Some at_ctx1 /\
    _AT_reply_send at_ctx1 = Some (at_ctx2, [USART2_write data 4]) /\
    bytes_written (USART2_write data 4) = [79; 75; 13; 10].
Proof.
  destruct (AT_reply_send_contents [79; 75] [33]
              (mkAT (replicate 128 0) 0 1 (replicate 128 255) 0))
    as (c1 & c2 & data & H1 & H2 & _ & _ & _ & H3).
  - unfold AT_context_ok. vm_compute. repeat apply conj; congruence.
  - reflexivity.
  - exists c1, c2, data. split; [exact H1|]. split; [exact H2|].
    apply H3. vm_compute. reflexivity.
Defined.

(** ** MCU temperature in sign and magnitude form *)

Lemma sign_magnitude_check_all :
  forallb sign_magnitude_check (seqZ (-128) 256) = true.
Proof. vm_compute. reflexivity. Qed.

(** X19.  The sign and magnitude form of the MCU temperature computed at the
    end of ADC1_ComputeTmcu, for every value of the signed 8-bit
    temperature: it is a byte whose bit 7 is set exactly for negative
    temperatures and whose bits 0-6 hold the absolute value modulo 128;
    read back as sign and magnitude it gives the temperature again, save
    for -128 degrees, whose magnitude does not fit in seven bits and
    which is stored as 0x80, that is minus zero. *)
Theorem ADC1_ComputeTmcu_sign_magnitude (adc_tmcu_degrees_comp2 : Z) :
  -128 <= adc_tmcu_degrees_comp2 <= 127 ->
  let adc_tmcu_degrees_comp1 := adc_tmcu_degrees_comp1_of adc_tmcu_degrees_comp2 in
  0 <= adc_tmcu_degrees_comp1 <= 255 /\
  Z.testbit adc_tmcu_degrees_comp1 7 = (adc_tmcu_degrees_comp2 <? 0) /\
  Z.land adc_tmcu_degrees_comp1 0x7F = Z.abs adc_tmcu_degrees_comp2 mod 128 /\
  (adc_tmcu_degrees_comp2 <> -128 ->
   sign_magnitude_value adc_tmcu_degrees_comp1 = adc_tmcu_degrees_comp2) /\
  (adc_tmcu_degrees_comp2 = -128 ->
   adc_tmcu_degrees_comp1 = 0x80 /\ sign_magnitude_value adc_tmcu_degrees_comp1 = 0).
Proof.
  intros Hrange comp1.
  pose proof sign_magnitude_check_all as Hall.
  rewrite forallb_forall in Hall.
  specialize (Hall adc_tmcu_degrees_comp2).
  assert (Hin : In adc_tmcu_degrees_comp2 (seqZ (-128) 256)).
  { apply list_elem_of_In, elem_of_seqZ. lia. }
  specialize (Hall Hin). unfold sign_magnitude_check in Hall. fold comp1 in Hall.
  cbv zeta in Hall.
  rewrite !andb_true_iff, orb_true_iff in Hall.
  destruct Hall as ((((Hlo & Hhi) & Hsign) & Hmag) & Hvalue).
  apply Z.leb_le in Hlo, Hhi. apply eqb_prop in Hsign. apply Z.eqb_eq in Hmag.
  repeat apply conj; try assumption.
  - intros Hne. destruct Hvalue as [H|H]; apply Z.eqb_eq in H; [contradiction | exact H].
  - subst comp1. intros ->. split; reflexivity.
Qed.

Lemma ADC1_ComputeTmcu_sign_magnitude_witness :
  adc_tmcu_degrees_comp1_of (-20) = 0x94 /\ sign_magnitude_value 0x94 = -20.
Proof.
  pose proof (ADC1_ComputeTmcu_sign_magnitude (-20) ltac:(lia)) as H.
  cbv zeta in H. destruct H as (_ & _ & _ & H & _).
  split; [reflexivity | apply H; lia].
Defined.
